(** * deploy_app.py: the FTP deployment script of ContextDescriptionApp

    A shallow embedding of [AppDeployer] (src/deploy_app.py) and the
    properties of its exclusion matcher, remote directory ensurer, tree
    uploader, remote cleaner and orchestrator.

    Python strings are [string]; [pathlib] paths are a record of an anchor
    and name components; the FTP connection is an abstract state machine
    (class [FtpServer]) answering one command at a time; [print] and every
    command sent are recorded, in order, in the log of the session. *)

From Stdlib Require Import String Ascii List Bool Arith Lia DecimalString.
Import ListNotations.
Local Open Scope list_scope.
Local Open Scope string_scope.

(* ===================================================================== *)
(** ** Python string operations used by the script *)
(* ===================================================================== *)

Module PyStr.

Definition slash : ascii := "/"%char.

(** [s.startswith(pre)] *)
Fixpoint startswith (s pre : string) : bool :=
  match pre, s with
  | EmptyString, _ => true
  | String _ _, EmptyString => false
  | String a pre', String b s' => Ascii.eqb a b && startswith s' pre'
  end.

(** [sub in s] *)
Fixpoint contains (s sub : string) : bool :=
  startswith s sub ||
  match s with
  | EmptyString => false
  | String _ s' => contains s' sub
  end.

(** [s.endswith(suf)] *)
Fixpoint endswith (s suf : string) : bool :=
  String.eqb s suf ||
  match s with
  | EmptyString => false
  | String _ s' => endswith s' suf
  end.

(** [s[1:]] *)
Definition slice1 (s : string) : string :=
  match s with
  | EmptyString => EmptyString
  | String _ s' => s'
  end.

(** truthiness of a string: [if s:] *)
Definition nonempty (s : string) : bool :=
  match s with
  | EmptyString => false
  | String _ _ => true
  end.

(** [s.split('/')]: never the empty list, [''.split('/') = ['']]. *)
Fixpoint split (s : string) : list string :=
  match s with
  | EmptyString => [EmptyString]
  | String c s' =>
      if Ascii.eqb c slash then EmptyString :: split s'
      else match split s' with
           | [] => [String c EmptyString]
           | h :: t => String c h :: t
           end
  end.

(** [s.lstrip('/')] *)
Fixpoint lstrip (s : string) : string :=
  match s with
  | EmptyString => EmptyString
  | String c s' => if Ascii.eqb c slash then lstrip s' else s
  end.

(** [s.rstrip('/')] *)
Fixpoint rstrip (s : string) : string :=
  match s with
  | EmptyString => EmptyString
  | String c s' =>
      let r := rstrip s' in
      if Ascii.eqb c slash && negb (nonempty r) then EmptyString
      else String c r
  end.

(** [s.strip('/')] *)
Definition strip (s : string) : string := rstrip (lstrip s).

(** ['/'.join(l)] *)
Fixpoint join (l : list string) : string :=
  match l with
  | [] => EmptyString
  | [x] => x
  | x :: rest => x ++ "/" ++ join rest
  end.

(** [x in l] for a list of strings *)
Definition mem (x : string) (l : list string) : bool :=
  existsb (String.eqb x) l.

End PyStr.

(* ===================================================================== *)
(** ** pathlib paths and the local tree *)
(* ===================================================================== *)

(** A [pathlib.PurePosixPath]: whether it starts at the root, and its name
    components. *)
Record Path := mkPath { anchor : bool; parts : list string }.

(** [str(path)] *)
Definition path_str (p : Path) : string :=
  match parts p with
  | [] => if anchor p then "/" else "."
  | _ => (if anchor p then "/" else "") ++ PyStr.join (parts p)
  end.

(** [path.name]: the final component, [''] when there is none. *)
Definition path_name (p : Path) : string := last (parts p) "".

(** The components pathlib keeps of a string operand: empty ones and ['.']
    are dropped. *)
Definition path_segments (s : string) : list string :=
  filter (fun x => PyStr.nonempty x && negb (String.eqb x "."))
         (PyStr.split s).

(** [path / s] *)
Definition path_div (p : Path) (s : string) : Path :=
  if PyStr.startswith s "/" then mkPath true (path_segments s)
  else mkPath (anchor p) (parts p ++ path_segments s)%list.

(** A child produced by [iterdir()]: the directory's path and one name. *)
Definition path_child (p : Path) (name : string) : Path :=
  mkPath (anchor p) (parts p ++ [name])%list.

(** The local files the script walks.  [Special] is an entry for which
    neither [is_file()] nor [is_dir()] holds.  The tree is a snapshot that
    can be listed and read: [iterdir()] and [open()] succeed on it. *)
Inductive node : Type :=
| File (name : string)
| Dir (name : string) (kids : forest)
| Special (name : string)
with forest : Type :=
| fnil
| fcons (item : node) (rest : forest).

Definition node_name (n : node) : string :=
  match n with
  | File name => name
  | Dir name _ => name
  | Special name => name
  end.

Fixpoint forest_of (l : list node) : forest :=
  match l with
  | [] => fnil
  | n :: r => fcons n (forest_of r)
  end.

Fixpoint find_child (name : string) (f : forest) : option node :=
  match f with
  | fnil => None
  | fcons n r => if String.eqb (node_name n) name then Some n else find_child name r
  end.

(** What [local_app_dir / item_name] designates inside the application
    directory [root]: [None] when [exists()] is false. *)
Fixpoint lookup (root : node) (segs : list string) : option node :=
  match segs with
  | [] => Some root
  | seg :: more =>
      match root with
      | Dir _ kids =>
          match find_child seg kids with
          | Some n => lookup n more
          | None => None
          end
      | _ => None
      end
  end.

(* ===================================================================== *)
(** ** The deployer object *)
(* ===================================================================== *)

Record AppDeployer := mkDeployer {
  host : string;
  username : string;
  password : string;
  remote_app_path : string;
  local_app_dir : Path;
  upload_items : list string;
  exclude_patterns : list string
}.

(** [os.environ.get(key, '')] *)
Definition environ_get (environ : string -> option string) (key : string) : string :=
  match environ key with
  | Some v => v
  | None => ""
  end.

(** [AppDeployer.__init__]: [here] is [Path(__file__).parent]. *)
Definition init (environ : string -> option string) (here : Path) : AppDeployer :=
  {| host := environ_get environ "SITEGROUND_HOST";
     username := environ_get environ "SITEGROUND_USERNAME";
     password := environ_get environ "SITEGROUND_PASSWORD";
     remote_app_path := "bobd77.sg-host.com/public_html/app";
     local_app_dir := here;
     upload_items := ["index.html"; "favicon.ico"; "src/"; "styles/"];
     exclude_patterns :=
       [".git"; "__pycache__"; "*.pyc"; ".DS_Store"; "node_modules";
        "tile-server"; "original"; "server.py"; "deploy_app.py"; "*.md";
        "*.png"; "VERSION_COMPARISON.md"; "SYSTEM_DESIGN.md"; "TILE_*"] |}.

(** The loop of [should_exclude] over [self.exclude_patterns]. *)
Fixpoint exclude_loop (patterns : list string) (path : Path) : bool :=
  match patterns with
  | [] => false
  | pattern :: rest =>
      if PyStr.contains (path_str path) pattern
         || String.eqb (path_name path) pattern
      then true
      else if PyStr.startswith pattern "*."
              && PyStr.endswith (path_name path) (PyStr.slice1 pattern)
      then true
      else exclude_loop rest path
  end.

Definition should_exclude (self : AppDeployer) (path : Path) : bool :=
  exclude_loop (exclude_patterns self) path.

(** [check_credentials]: [all([host, username, password])]. *)
Definition check_credentials (self : AppDeployer) : bool :=
  PyStr.nonempty (host self) && PyStr.nonempty (username self)
  && PyStr.nonempty (password self).

(* ===================================================================== *)
(** ** The FTP connection *)
(* ===================================================================== *)

(** The commands the script sends through [ftplib.FTP]: [login], [mkd],
    [cwd], [delete], [rmd], [retrlines('NLST')], [storbinary('STOR ...')]. *)
Inductive cmd : Type :=
| LOGIN (user pass : string)
| MKD (p : string)
| CWD (p : string)
| DELE (p : string)
| RMD (p : string)
| NLST
| STOR (p : string).

(** What comes back: completion (with the lines of a listing), a permanent
    refusal (ftplib raises [error_perm]), or any other failure of the
    exchange (another member of [ftplib.all_errors]). *)
Inductive reply : Type :=
| Ok (lines : list string)
| Perm
| Fail.

(** A server is a state machine answering one command at a time; [ftp_pwd]
    observes the working directory of the session. *)
Class FtpServer (S : Type) := {
  ftp_step : S -> cmd -> reply * S;
  ftp_pwd : S -> string
}.

(** The laws of the working directory used by the ensurer: creating a
    directory does not move the session, and a completed [cwd('/')] puts
    it at the root. *)
Class CwdLaws (S : Type) `{FtpServer S} : Prop := {
  mkd_keeps_pwd : forall s p, ftp_pwd (snd (ftp_step s (MKD p))) = ftp_pwd s;
  cwd_root : forall s s' l, ftp_step s (CWD "/") = (Ok l, s') -> ftp_pwd s' = "/"
}.

(** What the script prints, one constructor per message; the banners of
    several lines ([check_credentials], the start and the end of [deploy])
    are one message each.  The lines printed while the module is loaded
    (the search for a [.env] file) come before [main] and are not part of
    a run. *)
Inductive msg : Type :=
| Created_directory (p : string)
| Cannot_create_or_access (p : string)
| Uploaded (name remote : string)
| Failed_to_upload (local_file : string)
| Skipped (name : string)
| Deleted_file (item : string)
| Deleted_directory (item : string)
| Could_not_delete (item : string)
| Remote_directory_missing (p : string)
| Credentials_not_configured
| Starting (local remote : string)
| Connecting (h : string)
| Connected
| Creating_remote_directory (p : string)
| Cleaning
| Skipped_missing_item (item_name : string)
| Deployment_complete (total : nat)
| Ftp_error
| Deployment_error
| Dry_run (local remote : string)
| Dry_file (item_name : string)
| Dry_dir (item_name : string)
| Dry_sub (rel_path : string)
| Dry_missing (item_name : string).

Inductive event : Type :=
| Sent (c : cmd) (r : reply)
| Print (m : msg).

(** The exceptions that travel through the script: [ftplib.error_perm],
    the other members of [ftplib.all_errors], and [RecursionError]. *)
Inductive exn : Type :=
| error_perm
| error_other
| RecursionError.

Inductive outcome (A : Type) : Type :=
| Ret (a : A)
| Raise (e : exn).
Arguments Ret {A} a.
Arguments Raise {A} e.

Record world (S : Type) := mkWorld { srv : S; log : list event }.
Arguments mkWorld {S} srv log.
Arguments srv {S} w.
Arguments log {S} w.

(** Computations of the script: they transform the session and its log,
    and return or raise.  The session survives an exception. *)
Definition M (S A : Type) : Type := world S -> outcome A * world S.

Definition ret {S A} (a : A) : M S A := fun w => (Ret a, w).

Definition bind {S A B} (m : M S A) (k : A -> M S B) : M S B :=
  fun w =>
    match m w with
    | (Ret a, w') => k a w'
    | (Raise e, w') => (Raise e, w')
    end.

Definition raise {S A} (e : exn) : M S A := fun w => (Raise e, w).

(** [try: m  except ftplib.error_perm: h] *)
Definition try_perm {S A} (m h : M S A) : M S A :=
  fun w =>
    match m w with
    | (Raise error_perm, w') => h w'
    | r => r
    end.

(** [try: m  except: h] and [except Exception: h] *)
Definition try_all {S A} (m h : M S A) : M S A :=
  fun w =>
    match m w with
    | (Raise _, w') => h w'
    | r => r
    end.

Definition print {S} (m : msg) : M S unit :=
  fun w => (Ret tt, mkWorld (srv w) (log w ++ [Print m])%list).

Notation "x <- m ;; k" := (bind m (fun x => k))
  (at level 61, m at next level, right associativity).
Notation "m ;; k" := (bind m (fun _ => k))
  (at level 61, right associativity).

(** [for x in l: body(x)] *)
Fixpoint for_each {S A} (l : list A) (body : A -> M S unit) : M S unit :=
  match l with
  | [] => ret tt
  | x :: rest => body x ;; for_each rest body
  end.

Section Session.

Context {S : Type} `{FtpServer S}.

(** One call of an [ftplib.FTP] method.  What it raises is a member of
    [ftplib.all_errors]; the [ValueError] that ftplib raises before
    sending a path that holds a line break is outside the model, whose
    paths hold none. *)
Definition send (c : cmd) : M S (list string) :=
  fun w =>
    let (r, s') := ftp_step (srv w) c in
    (match r with
     | Ok lines => Ret lines
     | Perm => Raise error_perm
     | Fail => Raise error_other
     end,
     mkWorld s' (log w ++ [Sent c r])%list).

(** The [try] block of [create_remote_directory], for one running path. *)
Definition ensure_dir (current_path : string) : M S unit :=
  try_perm
    (send (MKD current_path) ;;
     print (Created_directory current_path))
    (try_perm
       (send (CWD current_path) ;;
        send (CWD "/") ;;
        ret tt)
       (print (Cannot_create_or_access current_path) ;;
        raise error_perm)).

(** The loop of [create_remote_directory] over the parts of the path. *)
Fixpoint ensure_loop (parts : list string) (current_path : string) : M S unit :=
  match parts with
  | [] => ret tt
  | part :: rest =>
      if PyStr.nonempty part then
        let current_path :=
          if PyStr.nonempty current_path then current_path ++ "/" ++ part
          else part in
        ensure_dir current_path ;;
        ensure_loop rest current_path
      else ensure_loop rest current_path
  end.

Definition create_remote_directory (path : string) : M S unit :=
  ensure_loop (PyStr.split (PyStr.strip path)) "".

(** [upload_file]: [open] succeeds on the snapshot; whatever the transfer
    raises is caught. *)
Definition upload_file (local_file : Path) (remote_file : string) : M S bool :=
  try_all
    (send (STOR remote_file) ;;
     print (Uploaded (path_name local_file) remote_file) ;;
     ret true)
    (print (Failed_to_upload (path_str local_file)) ;;
     ret false).

(** The [try] block around [ftp.mkd] in [upload_directory] and [deploy]:
    a refusal is passed over. *)
Definition try_mkd (remote_item_path : string) : M S unit :=
  try_perm
    (send (MKD remote_item_path) ;;
     print (Created_directory remote_item_path))
    (ret tt).

(** The loop of [upload_directory] over [local_dir.iterdir()], with the
    running [uploaded_count].  The local tree is a snapshot: [iterdir()],
    [is_file()] and [is_dir()] answer from it and do not raise. *)
Fixpoint upload_loop (self : AppDeployer) (local_dir : Path) (items : forest)
    (remote_dir : string) (uploaded_count : nat) : M S nat :=
  match items with
  | fnil => ret uploaded_count
  | fcons item rest =>
      let path := path_child local_dir (node_name item) in
      if should_exclude self path then
        print (Skipped (node_name item)) ;;
        upload_loop self local_dir rest remote_dir uploaded_count
      else
        let remote_item_path := remote_dir ++ "/" ++ node_name item in
        match item with
        | File _ =>
            ok <- upload_file path remote_item_path ;;
            upload_loop self local_dir rest remote_dir
              (if ok : bool then uploaded_count + 1 else uploaded_count)
        | Dir _ kids =>
            try_mkd remote_item_path ;;
            sub_count <- upload_loop self path kids remote_item_path 0 ;;
            upload_loop self local_dir rest remote_dir
              (uploaded_count + sub_count)
        | Special _ =>
            upload_loop self local_dir rest remote_dir uploaded_count
        end
  end.

Definition upload_directory (self : AppDeployer) (local_dir : Path)
    (items : forest) (remote_dir : string) : M S nat :=
  upload_loop self local_dir items remote_dir 0.

Definition is_dot (item : string) : bool := PyStr.mem item ["."; ".."].

(** The loop of [remove_directory] over the listing; [recurse] is the
    recursive call. *)
Definition remove_items (recurse : string -> M S unit) (items : list string) : M S unit :=
  for_each items (fun item =>
    if is_dot item then ret tt
    else try_perm (send (DELE item) ;; ret tt) (recurse item)).

(** [remove_directory].  [depth] is the number of nested calls the
    interpreter still allows: a call beyond it raises [RecursionError]. *)
Fixpoint remove_directory (depth : nat) (path : string) : M S unit :=
  match depth with
  | 0 => raise RecursionError
  | Datatypes.S d =>
      try_all
        (send (CWD path) ;;
         items <- send NLST ;;
         remove_items (remove_directory d) items ;;
         send (CWD "..") ;;
         send (RMD path) ;;
         ret tt)
        (ret tt)
  end.

(** The loop of [clean_remote_directory] over the listing. *)
Definition clean_items (depth : nat) (items : list string) : M S unit :=
  for_each items (fun item =>
    if is_dot item then ret tt
    else
      try_perm
        (send (DELE item) ;;
         print (Deleted_file item))
        (try_all
           (remove_directory depth item ;;
            print (Deleted_directory item))
           (print (Could_not_delete item)))).

Definition clean_remote_directory (depth : nat) (remote_path : string) : M S unit :=
  try_perm
    (send (CWD remote_path) ;;
     items <- send NLST ;;
     clean_items depth items ;;
     send (CWD "/") ;;
     ret tt)
    (print (Remote_directory_missing remote_path)).

(** What [local_app_dir / item_name] is in the snapshot [root] of the
    application directory.  The snapshot holds that directory only, so an
    item name that leaves it, an absolute one or one that goes up through
    [..], designates nothing in it; the items [AppDeployer()] configures
    are names inside it. *)
Definition local_item_of (root : node) (item_name : string) : option node :=
  if PyStr.startswith item_name "/" then None
  else lookup root (path_segments item_name).

(** The loop of [deploy] over [self.upload_items]. *)
Fixpoint upload_items_loop (self : AppDeployer) (root : node)
    (items : list string) (total_uploaded : nat) : M S nat :=
  match items with
  | [] => ret total_uploaded
  | item_name :: rest =>
      let local_item := path_div (local_app_dir self) item_name in
      match local_item_of root item_name with
      | None =>
          print (Skipped_missing_item item_name) ;;
          upload_items_loop self root rest total_uploaded
      | Some n =>
          let remote_item_path := remote_app_path self ++ "/" ++ item_name in
          match n with
          | File _ =>
              ok <- upload_file local_item remote_item_path ;;
              upload_items_loop self root rest
                (if ok : bool then total_uploaded + 1 else total_uploaded)
          | Dir _ kids =>
              try_mkd remote_item_path ;;
              count <- upload_directory self local_item kids remote_item_path ;;
              upload_items_loop self root rest (total_uploaded + count)
          | Special _ =>
              upload_items_loop self root rest total_uploaded
          end
      end
  end.

(** The body of [with ftplib.FTP(self.host) as ftp:] in [deploy]. *)
Definition deploy_session (self : AppDeployer) (root : node) (clean : bool)
    (depth : nat) : M S bool :=
  print (Connecting (host self)) ;;
  send (LOGIN (username self) (password self)) ;;
  print Connected ;;
  print (Creating_remote_directory (remote_app_path self)) ;;
  create_remote_directory (remote_app_path self) ;;
  (if clean then
     print Cleaning ;;
     clean_remote_directory depth (remote_app_path self)
   else ret tt) ;;
  total_uploaded <- upload_items_loop self root (upload_items self) 0 ;;
  print (Deployment_complete total_uploaded) ;;
  ret true.

(** What a run leaves behind: the value returned, everything printed and
    sent, and the server when a connection was made. *)
Record run := mkRun {
  result : bool;
  output : list event;
  final : option S
}.

(** [deploy].  [connect h] is [ftplib.FTP(h)]: the server reached, or
    [None] when the connection fails.  The [QUIT] sent when the [with]
    block is left is not part of the model: the session is taken to close
    normally. *)
Definition deploy (self : AppDeployer) (root : node)
    (connect : string -> option S) (clean : bool) (depth : nat) : run :=
  if negb (check_credentials self) then
    mkRun false [Print Credentials_not_configured] None
  else
    let banner :=
      [Print (Starting (path_str (local_app_dir self)) (remote_app_path self))] in
    match connect (host self) with
    | None => mkRun false (banner ++ [Print Ftp_error])%list None
    | Some s0 =>
        match deploy_session self root clean depth (mkWorld s0 banner) with
        | (Ret b, w) => mkRun b (log w) (Some (srv w))
        | (Raise RecursionError, w) =>
            mkRun false (log w ++ [Print Deployment_error])%list (Some (srv w))
        | (Raise _, w) =>
            mkRun false (log w ++ [Print Ftp_error])%list (Some (srv w))
        end
    end.

End Session.

Arguments mkRun {S} result output final.
Arguments result {S} r.
Arguments output {S} r.
Arguments final {S} r.

(** [p.iterdir()]: the paths of the entries of a directory. *)
Fixpoint iterdir (p : Path) (items : forest) : list Path :=
  match items with
  | fnil => []
  | fcons item rest => path_child p (node_name item) :: iterdir p rest
  end.

(** What [rglob('*')] finds inside the sub-directories of a directory:
    for each of them in turn, its entries and then what is found inside
    its own sub-directories. *)
Fixpoint rglob_below (p : Path) (items : forest) : list Path :=
  match items with
  | fnil => []
  | fcons item rest =>
      (match item with
       | Dir name kids =>
           let c := path_child p name in
           (iterdir c kids ++ rglob_below c kids)%list
       | _ => []
       end ++ rglob_below p rest)%list
  end.

(** [local_item.rglob('*')]: every entry below a directory, the entries
    of a directory before those of its sub-directories.  (The order in
    which pathlib visits the sub-directories has changed between versions
    of Python; this is the depth-first one.) *)
Definition rglob (p : Path) (items : forest) : list Path :=
  (iterdir p items ++ rglob_below p items)%list.

(** [subitem.relative_to(base)] for a path below [base]. *)
Definition relative_to (p base : Path) : Path :=
  mkPath false (skipn (List.length (parts base)) (parts p)).

(** The listing of the [--dry-run] branch of [main]. *)
Fixpoint dry_run_items (deployer : AppDeployer) (root : node)
    (items : list string) : list event :=
  match items with
  | [] => []
  | item_name :: rest =>
      let local_item := path_div (local_app_dir deployer) item_name in
      (match local_item_of root item_name with
       | Some (File _) => [Print (Dry_file item_name)]
       | Some n =>
           Print (Dry_dir item_name) ::
           map (fun subitem =>
                  Print (Dry_sub (path_str
                    (relative_to subitem (local_app_dir deployer)))))
               (filter (fun subitem => negb (should_exclude deployer subitem))
                       (match n with
                        | Dir _ kids => rglob local_item kids
                        | _ => []
                        end))
       | None => [Print (Dry_missing item_name)]
       end ++ dry_run_items deployer root rest)%list
  end.

(** [main]: the parsed flags [--clean] and [--dry-run], the process
    environment read by [AppDeployer()], and the exit status of the
    process together with what the run left behind. *)
Definition main {S : Type} `{FtpServer S} (environ : string -> option string)
    (here : Path) (root : node) (connect : string -> option S)
    (clean dry_run : bool) (depth : nat) : nat * run (S := S) :=
  let deployer := init environ here in
  if dry_run then
    (0, mkRun true
          (Print (Dry_run (path_str (local_app_dir deployer))
                          (remote_app_path deployer))
           :: dry_run_items deployer root (upload_items deployer))
          None)
  else
    let success := deploy deployer root connect clean depth in
    ((if result success then 0 else 1), success).

(* ===================================================================== *)
(** ** An FTP server in memory *)
(* ===================================================================== *)

(** A small server used to run the script on concrete sessions: a tree of
    directories and files named by their absolute components, entries the
    server refuses to delete or overwrite, one account.  It only ever
    answers [Ok] or [Perm]. *)
Module MemFtp.

Record state := mkState {
  cwd : list string;
  dirs : list (list string);
  files : list (list string);
  locked : list (list string);
  account : string * string
}.

Fixpoint path_eqb (a b : list string) : bool :=
  match a, b with
  | [], [] => true
  | x :: a', y :: b' => String.eqb x y && path_eqb a' b'
  | _, _ => false
  end.

Definition inb (q : list string) (l : list (list string)) : bool :=
  existsb (path_eqb q) l.

Definition remove (q : list string) (l : list (list string)) : list (list string) :=
  filter (fun x => negb (path_eqb q x)) l.

(** The entry a path argument names, from the working directory. *)
Definition resolve (base : list string) (p : string) : list string :=
  fold_left
    (fun acc seg =>
       if negb (PyStr.nonempty seg) || String.eqb seg "." then acc
       else if String.eqb seg ".." then removelast acc
       else (acc ++ [seg])%list)
    (PyStr.split p)
    (if PyStr.startswith p "/" then [] else base).

Definition is_dir (st : state) (q : list string) : bool :=
  match q with
  | [] => true
  | _ => inb q (dirs st)
  end.

Definition is_file (st : state) (q : list string) : bool := inb q (files st).

Definition children (st : state) (q : list string) : list string :=
  flat_map
    (fun e => match e with
              | [] => []
              | _ => if path_eqb (removelast e) q then [last e ""] else []
              end)
    (dirs st ++ files st)%list.

Definition with_cwd (st : state) (q : list string) : state :=
  mkState q (dirs st) (files st) (locked st) (account st).
Definition with_dirs (st : state) (d : list (list string)) : state :=
  mkState (cwd st) d (files st) (locked st) (account st).
Definition with_files (st : state) (f : list (list string)) : state :=
  mkState (cwd st) (dirs st) f (locked st) (account st).

Definition step (st : state) (c : cmd) : reply * state :=
  match c with
  | LOGIN u p =>
      if String.eqb u (fst (account st)) && String.eqb p (snd (account st))
      then (Ok [], st) else (Perm, st)
  | MKD p =>
      let q := resolve (cwd st) p in
      match q with
      | [] => (Perm, st)
      | _ =>
          if is_dir st q || is_file st q || negb (is_dir st (removelast q))
          then (Perm, st)
          else (Ok [], with_dirs st (dirs st ++ [q])%list)
      end
  | CWD p =>
      let q := resolve (cwd st) p in
      if is_dir st q then (Ok [], with_cwd st q) else (Perm, st)
  | DELE p =>
      let q := resolve (cwd st) p in
      if is_file st q && negb (inb q (locked st))
      then (Ok [], with_files st (remove q (files st)))
      else (Perm, st)
  | RMD p =>
      let q := resolve (cwd st) p in
      match q with
      | [] => (Perm, st)
      | _ =>
          if is_dir st q && negb (inb q (locked st))
             && match children st q with [] => true | _ => false end
          then (Ok [], with_dirs st (remove q (dirs st)))
          else (Perm, st)
      end
  | NLST => (Ok (children st (cwd st)), st)
  | STOR p =>
      let q := resolve (cwd st) p in
      match q with
      | [] => (Perm, st)
      | _ =>
          if is_dir st (removelast q) && negb (is_dir st q)
             && negb (inb q (locked st))
          then (Ok [], with_files st (remove q (files st) ++ [q])%list)
          else (Perm, st)
      end
  end.

Definition pwd (st : state) : string := "/" ++ PyStr.join (cwd st).

#[global] Instance server : FtpServer state :=
  {| ftp_step := step; ftp_pwd := pwd |}.

End MemFtp.

(* ===================================================================== *)
(** ** Vocabulary of the specification *)
(* ===================================================================== *)

(** [sub] occurs literally inside [s]. *)
Definition is_substring (sub s : string) : Prop :=
  exists a b, s = a ++ sub ++ b.

(** [s] ends with [suf]. *)
Definition has_suffix (suf s : string) : Prop :=
  exists a, s = a ++ suf.

(** The documented three-step exclusion policy for the patterns [R] and the
    path [P].  The remainder of a pattern [*.ext] is the pattern without its
    star, [.ext]. *)
Definition policy (R : list string) (P : Path) : Prop :=
  (exists pat, In pat R /\ is_substring pat (path_str P))
  \/ (exists pat, In pat R /\ path_name P = pat)
  \/ (exists pat ext, In pat R /\ pat = "*." ++ ext
                      /\ has_suffix ("." ++ ext) (path_name P)).

(** The segments of a remote path: split on [/], the empty ones
    discarded. *)
Definition segments (path : string) : list string :=
  filter PyStr.nonempty (PyStr.split path).

(** The non-empty initial runs of a list, shortest first. *)
Fixpoint inits1 {A : Type} (l : list A) : list (list A) :=
  match l with
  | [] => []
  | x :: rest => [x] :: map (cons x) (inits1 rest)
  end.

(** The running paths after [pre]: for segments [b; c] after [[a]], the
    paths [a/b] and [a/b/c]. *)
Definition running (pre segs : list string) : list string :=
  map (fun i => PyStr.join (pre ++ i)%list) (inits1 segs).

(** The accumulated prefixes of a remote path: [a], [a/b], [a/b/c]. *)
Definition prefixes (path : string) : list string :=
  running [] (segments path).



Definition is_ok (r : reply) : bool :=
  match r with
  | Ok _ => true
  | _ => false
  end.




(** The transfers of a log, in order: remote path and answer. *)
Definition stor_replies (l : list event) : list (string * reply) :=
  flat_map (fun e => match e with Sent (STOR p) r => [(p, r)] | _ => [] end) l.

(** The paths of the failure lines printed by [upload_file]. *)
Definition failed_uploads (l : list event) : list string :=
  flat_map (fun e => match e with Print (Failed_to_upload p) => [p] | _ => [] end) l.

(** The files of a local directory that are not excluded, in the order of
    the walk, each with the remote path it is sent to. *)
Fixpoint walk (self : AppDeployer) (local_dir : Path) (items : forest)
    (remote_dir : string) : list (Path * string) :=
  match items with
  | fnil => []
  | fcons item rest =>
      let path := path_child local_dir (node_name item) in
      if should_exclude self path then walk self local_dir rest remote_dir
      else
        let remote_item_path := remote_dir ++ "/" ++ node_name item in
        match item with
        | File _ => (path, remote_item_path) :: walk self local_dir rest remote_dir
        | Dir _ kids =>
            (walk self path kids remote_item_path
             ++ walk self local_dir rest remote_dir)%list
        | Special _ => walk self local_dir rest remote_dir
        end
  end.

(** The local paths of the files whose transfer was not completed, given
    the files sent and the answers received, in order. *)
Definition failures (files : list (Path * string))
    (answers : list (string * reply)) : list string :=
  map (fun x => path_str (fst (fst x)))
      (filter (fun x => negb (is_ok (snd (snd x)))) (combine files answers)).

(** The number of completed transfers. *)
Definition successes (answers : list (string * reply)) : nat :=
  List.length (filter (fun x => is_ok (snd x)) answers).

(** The line [upload_file] prints for a transfer. *)
Definition upload_report (local_file : Path) (remote_file : string)
    (r : reply) : msg :=
  if is_ok r then Uploaded (path_name local_file) remote_file
  else Failed_to_upload (path_str local_file).

(** [a] is a proper initial run of [b]. *)
Definition strict_prefix (a b : list string) : Prop :=
  exists x c, b = (a ++ x :: c)%list.

(** Creation of the directory with segments [d] was attempted in [l]. *)
Definition attempted (l : list event) (d : list string) : Prop :=
  exists q r, In (Sent (MKD q) r) l /\ segments q = d.

(** The directory with segments [d] was created, or confirmed to exist by
    entering it, in [l]. *)
Definition created_or_confirmed (l : list event) (d : list string) : Prop :=
  exists q lines, segments q = d
    /\ (In (Sent (MKD q) (Ok lines)) l \/ In (Sent (CWD q) (Ok lines)) l).

(** In [delta], every transfer goes below [base], and creation of each
    directory between [base] and the file was attempted before the
    transfer was issued. *)
Definition mkd_before_stor (base : list string) (delta : list event) : Prop :=
  forall l1 p a l2,
    delta = (l1 ++ Sent (STOR p) a :: l2)%list ->
    strict_prefix base (segments p)
    /\ forall d, strict_prefix base d -> strict_prefix d (segments p) ->
                 attempted l1 d.

(** A name of one segment: not empty, no slash. *)
Definition plain (name : string) : Prop := segments name = [name].

Fixpoint plain_names (f : forest) : Prop :=
  match f with
  | fnil => True
  | fcons item rest =>
      plain (node_name item)
      /\ match item with
         | Dir _ kids => plain_names kids
         | _ => True
         end
      /\ plain_names rest
  end.

Definition plain_node (n : node) : Prop :=
  match n with
  | Dir _ kids => plain_names kids
  | _ => True
  end.

(** The paths of the [DELE] and [RMD] commands of a log. *)
Definition deletions (l : list event) : list string :=
  flat_map (fun e => match e with
                     | Sent (DELE p) _ => [p]
                     | Sent (RMD p) _ => [p]
                     | _ => []
                     end) l.

(** The lines printed in a log. *)
Definition printed (l : list event) : list msg :=
  flat_map (fun e => match e with Print m => [m] | _ => [] end) l.



(** *** Concrete sessions on the server in memory *)

(** A session logged in at [/u], an empty home directory. *)
Definition home_session : world MemFtp.state :=
  mkWorld (MemFtp.mkState ["u"] [["u"]] [] [] ("bob", "pw")) [].

(** A session at the root of a server that already holds directory [a]. *)
Definition root_session : world MemFtp.state :=
  mkWorld (MemFtp.mkState [] [["a"]] [] [] ("bob", "pw")) [].

(** *** A concrete deployment *)

(** The process environment, with the three credentials set. *)
Definition environ (key : string) : option string :=
  if String.eqb key "SITEGROUND_HOST" then Some "ftp.example.org"
  else if String.eqb key "SITEGROUND_USERNAME" then Some "bob"
  else if String.eqb key "SITEGROUND_PASSWORD" then Some "pw"
  else None.

(** The directory of the script, and the deployer [AppDeployer()] builds. *)
Definition here : Path := mkPath true ["home"; "bob"; "site"].
Definition deployer : AppDeployer := init environ here.

(** The local application: [index.html] and [src/] with two files; there
    is no [favicon.ico] and no [styles/]. *)
Definition src_items : forest := forest_of [File "main.js"; File "util.js"].
Definition site : node :=
  Dir "site" (forest_of [File "index.html"; Dir "src" src_items]).

(** The components of the remote application directory. *)
Definition app_dir : list string := ["bobd77.sg-host.com"; "public_html"; "app"].

(** A server at its root that holds the application directory, with the
    given directories and files below it, and refuses to touch the
    [locked] ones. *)
Definition remote (dirs files locked : list (list string)) : MemFtp.state :=
  MemFtp.mkState []
    ([["bobd77.sg-host.com"]; ["bobd77.sg-host.com"; "public_html"]; app_dir]
       ++ map (List.app app_dir) dirs)%list
    (map (List.app app_dir) files)
    (map (List.app app_dir) locked)
    ("bob", "pw").

(** [FTP(host)]: the server reached, for the configured host only. *)
Definition reach (s : MemFtp.state) (h : string) : option MemFtp.state :=
  if String.eqb h "ftp.example.org" then Some s else None.

(** The local [src/] directory, the remote path [deploy] gives it, and a
    session on a server that holds one locked file in the remote [src]. *)
Definition src_path : Path := path_div here "src/".
Definition src_remote : string := "bobd77.sg-host.com/public_html/app/src/".
Definition locking (name : string) : world MemFtp.state :=
  mkWorld (remote [["src"]] [["src"; name]] [["src"; name]]) [].

(** A session at the root of a server whose application directory holds
    the directory [old] with one file [x] the server refuses to delete. *)
Definition stale_session : world MemFtp.state :=
  mkWorld (remote [["old"]] [["old"; "x"]] [["old"; "x"]]) [].

(** A session inside the application directory, which holds [x], that the
    server refuses to delete, and [y]. *)
Definition cleaning_session : world MemFtp.state :=
  mkWorld (MemFtp.with_cwd (remote [] [["x"]; ["y"]] [["x"]]) app_dir) [].

(** A server on which every upload below [src] is refused: it holds a
    plain file of that name. *)
Definition blocked : MemFtp.state := remote [] [["src"]; ["index.html"]] [["index.html"]].

(* ===================================================================== *)
(** ** server.py: the tile and static file server *)
(* ===================================================================== *)

(** The request handler of src/server.py.  The files of the machine are a
    parameter ([disk]); so is [urllib.parse.urlparse], of which the
    handler uses the path component only.  A response is what the handler
    hands to [http.server]: a status with the headers it sends itself and a
    body, a [send_error], or the file serving of the parent class. *)
Module TileServer.

Definition TILE_DIR : string := "../tile-generation/toronto-svg-tiles/tiles".

(** [s.replace(old, new)], for a non-empty [old]: the occurrences are
    found from the left and do not overlap; [skip] counts the characters
    of an occurrence that are still to be passed. *)
Fixpoint replace_from (old new : string) (skip : nat) (s : string) : string :=
  match s with
  | EmptyString => EmptyString
  | String c s' =>
      match skip with
      | Datatypes.S k => replace_from old new k s'
      | 0 =>
          if PyStr.startswith s old
          then new ++ replace_from old new (String.length old - 1) s'
          else String c (replace_from old new 0 s')
      end
  end.

Definition replace (s old new : string) : string := replace_from old new 0 s.

(** [os.path.join(a, b)] of [posixpath]. *)
Definition os_path_join (a b : string) : string :=
  if PyStr.startswith b "/" then b
  else if negb (PyStr.nonempty a) || PyStr.endswith a "/" then a ++ b
  else a ++ "/" ++ b.

(** [str(n)] *)
Definition str_of_nat (n : nat) : string :=
  NilZero.string_of_uint (Nat.to_uint n).

(** The files: [os.path.exists], and [open(p, 'rb').read()], which gives
    the bytes or raises with some text. *)
Record disk := mkDisk {
  path_exists : string -> bool;
  read_bytes : string -> string + string
}.

Inductive response : Type :=
| Sent_response (code : nat) (headers : list (string * string)) (body : string)
| Sent_error (code : nat) (message : string)
| Static (path : string).

(** The headers [end_headers] adds to every response. *)
Definition cors_headers : list (string * string) :=
  [("Access-Control-Allow-Origin", "*");
   ("Access-Control-Allow-Methods", "GET, POST, OPTIONS");
   ("Access-Control-Allow-Headers", "Content-Type")].

Definition do_OPTIONS : response := Sent_response 200 cors_headers "".

(** [serve_tile], once the two paths are computed. *)
Definition tile_response (d : disk) (tile_path full_path : string) : response :=
  if negb (path_exists d full_path)
  then Sent_error 404 ("Tile not found: " ++ tile_path)
  else
    match read_bytes d full_path with
    | inl content =>
        Sent_response 200
          ([("Content-Type", "image/svg+xml");
            ("Content-Encoding", "gzip");
            ("Content-Length", str_of_nat (String.length content));
            ("Cache-Control", "public, max-age=3600")] ++ cors_headers)%list
          content
    | inr e => Sent_error 500 ("Error serving tile: " ++ e)
    end.

Definition serve_tile (d : disk) (path : string) : response :=
  let tile_path := replace path "/maps/tiles/" "" in
  let full_path := os_path_join TILE_DIR tile_path in
  tile_response d tile_path full_path.

(** [do_GET]: [self_path] is [self.path], the target of the request. *)
Definition do_GET (urlparse_path : string -> string) (d : disk)
    (self_path : string) : response :=
  let parsed_path := urlparse_path self_path in
  if PyStr.startswith parsed_path "/maps/tiles/"
  then serve_tile d parsed_path
  else Static self_path.

End TileServer.

(* ===================================================================== *)
(** ** A connection that is lost *)
(* ===================================================================== *)

(** The server in memory behind a connection that carries a given number of
    commands and then fails on every one: the answers are those of
    [MemFtp], then [Fail]. *)
Module Dropping.

Definition state : Type := nat * MemFtp.state.

Definition step (st : state) (c : cmd) : reply * state :=
  match st with
  | (0, m) => (Fail, (0, m))
  | (Datatypes.S n, m) =>
      let (r, m') := MemFtp.step m c in (r, (n, m'))
  end.

#[global] Instance server : FtpServer state :=
  {| ftp_step := step; ftp_pwd := fun st => MemFtp.pwd (snd st) |}.

End Dropping.

(** A machine on which one file exists, with the given bytes. *)
Definition one_file (name content : string) : TileServer.disk :=
  TileServer.mkDisk (String.eqb name)
    (fun p => if String.eqb name p then inl content else inr "no such file").

(* ===================================================================== *)
(** ** Vocabulary of the further properties *)
(* ===================================================================== *)

(** The commands of a log, in order. *)
Definition commands (l : list event) : list cmd :=
  flat_map (fun e => match e with Sent c _ => [c] | _ => [] end) l.

(** A computation adds to the log only events that are [allowed]. *)
Definition confined {S A : Type} (allowed : event -> Prop) (m : M S A) : Prop :=
  forall w, exists delta,
    log (snd (m w)) = (log w ++ delta)%list /\ Forall allowed delta.

(** An event is a printed line or a command of the given class. *)
Definition only_commands (class : cmd -> bool) (e : event) : Prop :=
  match e with
  | Sent c _ => class c = true
  | Print _ => True
  end.

(** The commands that create and store. *)
Definition is_mkd_or_stor (c : cmd) : bool :=
  match c with
  | MKD _ | STOR _ => true
  | _ => false
  end.

(** The commands that create and enter. *)
Definition is_mkd_or_cwd (c : cmd) : bool :=
  match c with
  | MKD _ | CWD _ => true
  | _ => false
  end.

(** The commands that list or remove something on the server. *)
Definition is_listing_or_removal (c : cmd) : bool :=
  match c with
  | DELE _ | RMD _ | NLST => true
  | _ => false
  end.

(** What the cleaner may add to the log: changes of directory, listings,
    and removals of entries other than [.] and [..]; and its lines. *)
Definition spares_dots (e : event) : Prop :=
  match e with
  | Sent (DELE p) _ => is_dot p = false
  | Sent (RMD p) _ => is_dot p = false
  | Sent (CWD _) _ => True
  | Sent NLST _ => True
  | Sent _ _ => False
  | Print _ => True
  end.

(** The line the clean pass prints for an entry of the listing. *)
Definition deletion_line (item : string) (m : msg) : Prop :=
  m = Deleted_file item \/ m = Deleted_directory item.

(** Any event but the line that reports an entry as not deleted. *)
Definition not_a_failure_report (e : event) : Prop :=
  match e with
  | Print (Could_not_delete _) => False
  | _ => True
  end.

(** An exception comes from the command just sent: the permission error
    from a refusal, the other error from a failure. *)
Definition raised_by_last_command {S : Type} (e : exn) (w : world S) : Prop :=
  (e = error_perm /\ exists l c, log w = (l ++ [Sent c Perm])%list)
  \/ (e = error_other /\ exists l c, log w = (l ++ [Sent c Fail])%list).

(** A computation raises only what the command it has just sent
    raised. *)
Definition raises_from_send {S A : Type} (m : M S A) : Prop :=
  forall w w' e, m w = (Raise e, w') -> raised_by_last_command e w'.

(** Any command but a transfer. *)
Definition is_not_stor (c : cmd) : bool :=
  match c with
  | STOR _ => false
  | _ => true
  end.

(** Any command but a listing or a removal. *)
Definition is_not_listing_or_removal (c : cmd) : bool :=
  negb (is_listing_or_removal c).

(** The part of the body of [deploy] that comes before the uploads: the
    login, the deployment root, the clean pass when it is asked for. *)
Definition before_upload {S : Type} `{FtpServer S} (self : AppDeployer)
    (clean : bool) (depth : nat) : M S unit :=
  print (Connecting (host self)) ;;
  send (LOGIN (username self) (password self)) ;;
  print Connected ;;
  print (Creating_remote_directory (remote_app_path self)) ;;
  create_remote_directory (remote_app_path self) ;;
  (if clean then
     print Cleaning ;;
     clean_remote_directory depth (remote_app_path self)
   else ret tt).

(** The entries of a directory listing, in the order of [iterdir()]. *)
Fixpoint items_of (f : forest) : list node :=
  match f with
  | fnil => []
  | fcons item rest => item :: items_of rest
  end.

(** The two tests of [should_exclude] that decide: the pattern occurs in
    the string of the path, or it is a [*.ext] pattern and the name ends
    with [.ext]. *)
Definition pattern_hits (path : Path) (pattern : string) : bool :=
  PyStr.contains (path_str path) pattern
  || (PyStr.startswith pattern "*."
      && PyStr.endswith (path_name path) (PyStr.slice1 pattern)).

(** A path that has a string form other than ['.']: it is anchored at the
    root or has a component. *)
Definition rooted (p : Path) : Prop := parts p <> [] \/ anchor p = true.






(* ===================================================================== *)
(** ** Properties: strings *)
(* ===================================================================== *)

Lemma startswith_spec (s pre : string) :
  PyStr.startswith s pre = true <-> exists r, s = pre ++ r.
Proof.
  revert s; induction pre as [|a pre IH]; intros s; simpl.
  - destruct s; split; solve [reflexivity | intros _; eexists; reflexivity].
  - destruct s as [|b s]; simpl.
    + split; [discriminate | intros [r Hr]; discriminate].
    + rewrite andb_true_iff, Ascii.eqb_eq, IH; split.
      * intros [-> [r ->]]; now exists r.
      * intros [r Hr]; injection Hr as -> ->; split; [reflexivity | now exists r].
Qed.

Lemma contains_spec (s sub : string) :
  PyStr.contains s sub = true <-> is_substring sub s.
Proof.
  unfold is_substring; induction s as [|c s IH]; cbn [PyStr.contains].
  - rewrite orb_false_r, startswith_spec; split.
    + intros [r Hr]; now exists "", r.
    + intros [a [b Hab]]; destruct a; simpl in Hab; [now exists b | discriminate].
  - rewrite orb_true_iff, startswith_spec, IH; split.
    + intros [[r Hr] | [a [b Hab]]].
      * now exists "", r.
      * exists (String c a), b; simpl; now rewrite Hab.
    + intros [a [b Hab]]; destruct a as [|c' a]; simpl in Hab.
      * left; now exists b.
      * right; injection Hab as _ ->; now exists a, b.
Qed.

Lemma endswith_spec (s suf : string) :
  PyStr.endswith s suf = true <-> has_suffix suf s.
Proof.
  unfold has_suffix; induction s as [|c s IH]; cbn [PyStr.endswith].
  - rewrite orb_false_r, String.eqb_eq; split.
    + intros <-; now exists "".
    + intros [a Ha]; destruct a; simpl in Ha; [assumption | discriminate].
  - rewrite orb_true_iff, String.eqb_eq, IH; split.
    + intros [<- | [a ->]]; [now exists "" | now exists (String c a)].
    + intros [a Ha]; destruct a as [|c' a]; simpl in Ha.
      * now left.
      * right; injection Ha as _ ->; now exists a.
Qed.

(* ===================================================================== *)
(** ** Properties: the exclusion matcher *)
(* ===================================================================== *)

Lemma exclude_loop_spec (R : list string) (P : Path) :
  exclude_loop R P = true <->
  exists pat, In pat R /\
    (is_substring pat (path_str P) \/ path_name P = pat
     \/ (PyStr.startswith pat "*." = true
         /\ has_suffix (PyStr.slice1 pat) (path_name P))).
Proof.
  induction R as [|pat R IH]; simpl.
  - split; [discriminate | intros [pat [[] _]]].
  - destruct (PyStr.contains (path_str P) pat) eqn:Hc; simpl.
    { split; [intros _ | reflexivity].
      exists pat; split; [now left | left; now apply contains_spec]. }
    destruct (String.eqb (path_name P) pat) eqn:He; simpl.
    { split; [intros _ | reflexivity].
      exists pat; split; [now left | right; left; now apply String.eqb_eq]. }
    destruct (PyStr.startswith pat "*." && PyStr.endswith (path_name P) (PyStr.slice1 pat)) eqn:Hw.
    { split; [intros _ | reflexivity].
      apply andb_true_iff in Hw as [Hs Hw]; apply endswith_spec in Hw.
      exists pat; split; [now left | right; right; now split]. }
    rewrite IH; split.
    + intros [p [Hin Hp]]; exists p; split; [now right | assumption].
    + intros [p [[<- | Hin] Hp]]; [exfalso | exists p; now split].
      destruct Hp as [Hp | [Hp | [Hs Hp]]].
      * apply contains_spec in Hp; congruence.
      * apply String.eqb_eq in Hp; congruence.
      * apply endswith_spec in Hp; rewrite Hs, Hp in Hw; discriminate.
Qed.

(** C3. [should_exclude] is a function of the path and the configured
    patterns alone, and it answers [true] exactly when the three-step policy
    does: some pattern is a literal substring of the path's string form, or
    equals its final name component, or begins with [*.] while the final
    name component ends with the pattern's remainder. *)
Theorem should_exclude_matches_policy (self : AppDeployer) (P : Path) :
  should_exclude self P = true <-> policy (exclude_patterns self) P.
Proof.
  unfold should_exclude, policy; rewrite exclude_loop_spec; split.
  - intros [pat [Hin [Hs | [Hn | [Hw Hp]]]]].
    + left; now exists pat.
    + right; left; now exists pat.
    + right; right; apply startswith_spec in Hw as [ext ->].
      exists ("*." ++ ext), ext; now repeat split.
  - intros [[pat [Hin Hs]] | [[pat [Hin Hn]] | [pat [ext [Hin [-> Hp]]]]]].
    + exists pat; split; [assumption | now left].
    + exists pat; split; [assumption | right; now left].
    + exists ("*." ++ ext); split; [assumption | right; right; split].
      * apply startswith_spec; now exists ext.
      * exact Hp.
Qed.

(* ===================================================================== *)
(** ** Properties: the remote directory ensurer *)
(* ===================================================================== *)

Lemma split_not_nil (s : string) : PyStr.split s <> [].
Proof.
  induction s as [|c s IH]; simpl; [discriminate|].
  destruct (Ascii.eqb c PyStr.slash); [discriminate|].
  destruct (PyStr.split s); discriminate.
Qed.

Lemma segments_lstrip (s : string) : segments (PyStr.lstrip s) = segments s.
Proof.
  unfold segments; induction s as [|c s IH]; [reflexivity|].
  cbn [PyStr.lstrip PyStr.split].
  destruct (Ascii.eqb c PyStr.slash) eqn:E; [exact IH | ].
  cbn [PyStr.split]; now rewrite E.
Qed.

(** [rstrip] only removes empty parts at the end of the split. *)
Lemma split_rstrip (s : string) :
  hd "" (PyStr.split (PyStr.rstrip s)) = hd "" (PyStr.split s)
  /\ filter PyStr.nonempty (tl (PyStr.split (PyStr.rstrip s)))
     = filter PyStr.nonempty (tl (PyStr.split s)).
Proof.
  induction s as [|c s [IHh IHt]]; [now split|].
  cbn [PyStr.rstrip PyStr.split].
  destruct (Ascii.eqb c PyStr.slash) eqn:E; cbn [andb].
  - destruct (PyStr.nonempty (PyStr.rstrip s)) eqn:N; cbn [negb].
    + cbn [PyStr.split]; rewrite E; cbn [hd tl]; split; [reflexivity|].
      pose proof (split_not_nil (PyStr.rstrip s)) as H1.
      pose proof (split_not_nil s) as H2.
      destruct (PyStr.split (PyStr.rstrip s)) as [|h t]; [congruence|].
      destruct (PyStr.split s) as [|h' t']; [congruence|].
      cbn [hd tl] in *; subst h'; cbn [filter]; now rewrite IHt.
    + cbn [PyStr.split hd tl]; split; [reflexivity|].
      destruct (PyStr.rstrip s); [|discriminate].
      cbn [PyStr.split hd tl filter] in *.
      pose proof (split_not_nil s) as H2.
      destruct (PyStr.split s) as [|h' t']; [congruence|].
      cbn [hd tl] in *; subst h'; cbn [filter PyStr.nonempty]; now rewrite <- IHt.
  - cbn [PyStr.split]; rewrite E.
    pose proof (split_not_nil (PyStr.rstrip s)) as H1.
    pose proof (split_not_nil s) as H2.
    destruct (PyStr.split (PyStr.rstrip s)) as [|h t]; [congruence|].
    destruct (PyStr.split s) as [|h' t']; [congruence|].
    cbn [hd tl] in *; subst h'; now split.
Qed.

Lemma segments_rstrip (s : string) : segments (PyStr.rstrip s) = segments s.
Proof.
  unfold segments; destruct (split_rstrip s) as [Hh Ht].
  pose proof (split_not_nil (PyStr.rstrip s)) as H1.
  pose proof (split_not_nil s) as H2.
  destruct (PyStr.split (PyStr.rstrip s)) as [|h t]; [congruence|].
  destruct (PyStr.split s) as [|h' t']; [congruence|].
  cbn [hd tl] in *; subst h'; cbn [filter]; now rewrite Ht.
Qed.

(** Stripping the slashes at both ends loses no segment. *)
Lemma segments_strip (s : string) : segments (PyStr.strip s) = segments s.
Proof. unfold PyStr.strip; now rewrite segments_rstrip, segments_lstrip. Qed.

Lemma append_assoc (a b c : string) : a ++ (b ++ c) = (a ++ b) ++ c.
Proof. induction a as [|x a IH]; simpl; [reflexivity | now rewrite IH]. Qed.

Lemma join_nonempty (x : string) (p : list string) :
  PyStr.nonempty x = true -> PyStr.nonempty (PyStr.join (x :: p)) = true.
Proof.
  destruct x; [discriminate|]; intros _; simpl; now destruct p.
Qed.

Lemma join_snoc (x : string) (p : list string) (seg : string) :
  PyStr.join ((x :: p) ++ [seg]) = PyStr.join (x :: p) ++ "/" ++ seg.
Proof.
  revert x; induction p as [|y p IH]; intros x; [reflexivity|].
  change (((x :: y :: p) ++ [seg])%list) with (x :: ((y :: p) ++ [seg]))%list.
  change (PyStr.join (x :: ((y :: p) ++ [seg])%list))
    with (x ++ "/" ++ PyStr.join ((y :: p) ++ [seg])%list).
  rewrite IH.
  change (PyStr.join (x :: y :: p)) with (x ++ "/" ++ PyStr.join (y :: p)).
  now rewrite <- !append_assoc.
Qed.

(** The running path of the loop after one more segment. *)
Lemma running_path_step (pre : list string) (seg : string) :
  Forall (fun x => PyStr.nonempty x = true) pre ->
  (if PyStr.nonempty (PyStr.join pre) then PyStr.join pre ++ "/" ++ seg else seg)
  = PyStr.join (pre ++ [seg]).
Proof.
  intros Hpre; destruct pre as [|x p]; [reflexivity|].
  inversion Hpre; subst.
  rewrite join_nonempty by assumption; now rewrite join_snoc.
Qed.

Lemma running_cons (pre : list string) (seg : string) (rest : list string) :
  running pre (seg :: rest)
  = PyStr.join (pre ++ [seg]) :: running (pre ++ [seg]) rest.
Proof.
  unfold running; cbn [inits1 map]; f_equal.
  rewrite map_map; apply map_ext; intros i.
  now rewrite <- app_assoc.
Qed.




Section EnsurerFacts.

Context {S : Type} `{FtpServer S}.




End EnsurerFacts.



Section EnsurerSession.

Context {S : Type} `{CwdLaws S}.



End EnsurerSession.

#[global] Instance memftp_cwd_laws : CwdLaws MemFtp.state.
Proof.
  split.
  - intros s p; cbn.
    destruct (MemFtp.resolve (MemFtp.cwd s) p); [reflexivity|].
    match goal with |- context [if ?c then _ else _] => destruct c end; reflexivity.
  - intros s s' l; cbn. intros E; injection E as _ <-; reflexivity.
Qed.




(* ===================================================================== *)
(** ** Properties: the tree uploader *)
(* ===================================================================== *)

Scheme node_forest_ind := Induction for node Sort Prop
  with forest_node_ind := Induction for forest Sort Prop.

(** Induction on a directory listing, with the listing of each
    sub-directory. *)
Lemma forest_induction (P : forest -> Prop) :
  P fnil ->
  (forall name rest, P rest -> P (fcons (File name) rest)) ->
  (forall name kids rest, P kids -> P rest -> P (fcons (Dir name kids) rest)) ->
  (forall name rest, P rest -> P (fcons (Special name) rest)) ->
  forall f, P f.
Proof.
  intros Hnil Hfile Hdir Hspecial.
  apply (forest_node_ind
           (fun n => match n with Dir _ kids => P kids | _ => True end) P);
    try (intros; exact I); try assumption.
  - intros name kids Hkids; exact Hkids.
  - intros [name|name kids|name] Hn rest Hrest; auto.
Qed.

Section UploaderFacts.

Context {S : Type} `{FtpServer S}.

(** [upload_file] always returns: [True] when the transfer completes,
    [False] whatever else the server answers. *)
Lemma upload_file_run (local_file : Path) (remote_file : string) (w : world S) :
  upload_file local_file remote_file w
  = (Ret (is_ok (fst (ftp_step (srv w) (STOR remote_file)))),
     mkWorld (snd (ftp_step (srv w) (STOR remote_file)))
       (log w ++ [Sent (STOR remote_file) (fst (ftp_step (srv w) (STOR remote_file)));
                  Print (upload_report local_file remote_file
                           (fst (ftp_step (srv w) (STOR remote_file))))])).
Proof.
  unfold upload_file, try_all, bind, send, print, ret, upload_report.
  destruct (ftp_step (srv w) (STOR remote_file)) as [[l| |] s1]; cbn;
    now rewrite <- app_assoc.
Qed.

End UploaderFacts.

(** C5. In the loop of [upload_directory], a file child whose transfer
    raises an error does not stop the loop: the remaining siblings are
    processed next, with the count unchanged; a file child whose transfer
    completes adds exactly one to the count. *)
Theorem upload_continues_after_failure {S : Type} `{FtpServer S}
    (self : AppDeployer) (local_dir : Path) (name : string) (rest : forest)
    (remote_dir : string) (uploaded_count : nat) (w : world S) :
  should_exclude self (path_child local_dir name) = false ->
  let local_file := path_child local_dir name in
  let remote_file := remote_dir ++ "/" ++ name in
  let answer := fst (ftp_step (srv w) (STOR remote_file)) in
  let after :=
    mkWorld (snd (ftp_step (srv w) (STOR remote_file)))
      (log w ++ [Sent (STOR remote_file) answer;
                 Print (upload_report local_file remote_file answer)]) in
  upload_loop self local_dir (fcons (File name) rest) remote_dir uploaded_count w
  = upload_loop self local_dir rest remote_dir
      (if is_ok answer then uploaded_count + 1 else uploaded_count) after
  /\ (is_ok answer = false ->
      In (Print (Failed_to_upload (path_str local_file))) (log after)).
Proof.
  intros Hex; cbn zeta; split.
  - cbn [upload_loop node_name]; rewrite Hex.
    unfold bind at 1; now rewrite upload_file_run.
  - intros Hno; cbn [log]; apply in_or_app; right; right; left.
    unfold upload_report; now rewrite Hno.
Qed.

Lemma stor_replies_app (a b : list event) :
  stor_replies (a ++ b) = (stor_replies a ++ stor_replies b)%list.
Proof. apply flat_map_app. Qed.

Lemma failed_uploads_app (a b : list event) :
  failed_uploads (a ++ b) = (failed_uploads a ++ failed_uploads b)%list.
Proof. apply flat_map_app. Qed.

Lemma successes_app (a b : list (string * reply)) :
  successes (a ++ b) = successes a + successes b.
Proof. unfold successes; now rewrite filter_app, length_app. Qed.

Lemma combine_append {A B : Type} (a1 a2 : list A) (b1 b2 : list B) :
  List.length a1 = List.length b1 ->
  combine (a1 ++ a2) (b1 ++ b2) = (combine a1 b1 ++ combine a2 b2)%list.
Proof.
  revert b1; induction a1 as [|x a1 IH]; intros [|y b1] Hlen;
    try discriminate; [reflexivity|].
  cbn; f_equal; apply IH; now injection Hlen.
Qed.

Lemma failures_app (f1 f2 : list (Path * string)) (a1 a2 : list (string * reply)) :
  map fst a1 = map snd f1 ->
  failures (f1 ++ f2) (a1 ++ a2) = (failures f1 a1 ++ failures f2 a2)%list.
Proof.
  intros Hm; unfold failures.
  rewrite combine_append, filter_app, map_app; [reflexivity|].
  now rewrite <- (length_map snd f1), <- Hm, length_map.
Qed.

Lemma upload_report_failed (p : Path) (r : string) (a : reply) :
  failed_uploads [Sent (STOR r) a; Print (upload_report p r a)]
  = failures [(p, r)] [(r, a)].
Proof. unfold upload_report, failures; cbn; now destruct (is_ok a). Qed.

Section UploaderCount.

Context {S : Type} `{FtpServer S}.

(** The block around [ftp.mkd] sends one [MKD] and no transfer. *)
Lemma try_mkd_log (r : string) (w : world S) :
  exists tail,
    log (snd (try_mkd r w))
    = (log w ++ Sent (MKD r) (fst (ftp_step (srv w) (MKD r))) :: tail)%list
    /\ (tail = [] \/ tail = [Print (Created_directory r)]).
Proof.
  unfold try_mkd, try_perm, bind, send, print, ret.
  destruct (ftp_step (srv w) (MKD r)) as [[l| |] s1]; cbn.
  - exists [Print (Created_directory r)]; rewrite <- app_assoc; split; [reflexivity | now right].
  - exists []; split; [reflexivity | now left].
  - exists []; split; [reflexivity | now left].
Qed.

Lemma upload_loop_count (self : AppDeployer) (items : forest) :
  forall (local_dir : Path) (remote_dir : string) (count : nat)
         (w w' : world S) (n : nat),
    upload_loop self local_dir items remote_dir count w = (Ret n, w') ->
    exists delta,
      log w' = (log w ++ delta)%list
      /\ map fst (stor_replies delta)
         = map snd (walk self local_dir items remote_dir)
      /\ n = count + successes (stor_replies delta)
      /\ failed_uploads delta
         = failures (walk self local_dir items remote_dir) (stor_replies delta).
Proof.
  induction items as [|name rest IH|name kids rest IHk IH|name rest IH]
    using forest_induction; intros local_dir remote_dir count w w' n;
    cbn [upload_loop walk node_name].
  - unfold ret; intros E; injection E as <- <-.
    exists []; rewrite app_nil_r; cbn; repeat split; lia.
  - destruct (should_exclude self (path_child local_dir name)) eqn:Hex.
    + unfold bind, print at 1; intros E.
      destruct (IH _ _ _ _ _ _ E) as [d [Hd [Hs [Hn Hf]]]]; cbn [log] in Hd.
      exists (Print (Skipped name) :: d); rewrite Hd, <- app_assoc.
      repeat split; assumption.
    + unfold bind at 1; rewrite upload_file_run; intros E.
      destruct (IH _ _ _ _ _ _ E) as [d [Hd [Hs [Hn Hf]]]]; cbn [log] in Hd.
      set (a := fst (ftp_step (srv w) (STOR (remote_dir ++ "/" ++ name)))) in *.
      exists ([Sent (STOR (remote_dir ++ "/" ++ name)) a;
               Print (upload_report (path_child local_dir name)
                        (remote_dir ++ "/" ++ name) a)] ++ d)%list.
      rewrite Hd, <- app_assoc; split; [reflexivity|].
      rewrite stor_replies_app, failed_uploads_app, upload_report_failed.
      change (stor_replies [Sent (STOR (remote_dir ++ "/" ++ name)) a;
                            Print (upload_report (path_child local_dir name)
                                     (remote_dir ++ "/" ++ name) a)])
        with [(remote_dir ++ "/" ++ name, a)].
      repeat split.
      * cbn [app map fst snd]; now rewrite Hs.
      * rewrite successes_app, Hn; unfold successes at 2; cbn.
        destruct (is_ok a); cbn; lia.
      * rewrite Hf; symmetry.
        now apply (failures_app [(path_child local_dir name, remote_dir ++ "/" ++ name)]
                     _ [(remote_dir ++ "/" ++ name, a)]).
  - destruct (should_exclude self (path_child local_dir name)) eqn:Hex.
    + unfold bind, print at 1; intros E.
      destruct (IH _ _ _ _ _ _ E) as [d [Hd [Hs [Hn Hf]]]]; cbn [log] in Hd.
      exists (Print (Skipped name) :: d); rewrite Hd, <- app_assoc.
      repeat split; assumption.
    + unfold bind at 1.
      destruct (try_mkd_log (remote_dir ++ "/" ++ name) w) as [tail [Hm Ht]].
      destruct (try_mkd (remote_dir ++ "/" ++ name) w) as [[[]|e] w1];
        [|discriminate]; cbn [snd] in Hm.
      unfold bind at 1.
      destruct (upload_loop self (path_child local_dir name) kids
                  (remote_dir ++ "/" ++ name) 0 w1) as [[k|e] w2] eqn:E2;
        [|discriminate].
      intros E.
      destruct (IHk _ _ _ _ _ _ E2) as [d2 [Hd2 [Hs2 [Hn2 Hf2]]]].
      destruct (IH _ _ _ _ _ _ E) as [d3 [Hd3 [Hs3 [Hn3 Hf3]]]].
      set (dm := Sent (MKD (remote_dir ++ "/" ++ name))
                   (fst (ftp_step (srv w) (MKD (remote_dir ++ "/" ++ name)))) :: tail) in *.
      assert (Hdm : stor_replies dm = [] /\ failed_uploads dm = [])
        by (destruct Ht as [-> | ->]; now split).
      destruct Hdm as [Hdm1 Hdm2].
      exists (dm ++ d2 ++ d3)%list.
      rewrite Hd3, Hd2, Hm, <- !app_assoc; split; [reflexivity|].
      rewrite !stor_replies_app, !failed_uploads_app, Hdm1, Hdm2; cbn [app].
      repeat split.
      * now rewrite !map_app, Hs2, Hs3.
      * rewrite successes_app; lia.
      * now rewrite failures_app, Hf2, Hf3.
  - destruct (should_exclude self (path_child local_dir name)) eqn:Hex.
    + unfold bind, print at 1; intros E.
      destruct (IH _ _ _ _ _ _ E) as [d [Hd [Hs [Hn Hf]]]]; cbn [log] in Hd.
      exists (Print (Skipped name) :: d); rewrite Hd, <- app_assoc.
      repeat split; assumption.
    + apply IH.
Qed.

End UploaderCount.

(** C2, as the code has it.  [upload_directory] returns one number, the
    count of the files whose transfer completed in the whole recursion; it
    returns no list of failures.  A failed transfer is only reported by a
    printed failure line: the lines printed name exactly the files whose
    transfer did not complete, in order, so one failed transfer gives one
    line, with the path of that file. *)
Theorem upload_directory_count {S : Type} `{FtpServer S}
    (self : AppDeployer) (local_dir : Path) (items : forest)
    (remote_dir : string) (w w' : world S) (n : nat) :
  upload_directory self local_dir items remote_dir w = (Ret n, w') ->
  exists delta,
    log w' = (log w ++ delta)%list
    /\ map fst (stor_replies delta)
       = map snd (walk self local_dir items remote_dir)
    /\ n = successes (stor_replies delta)
    /\ failed_uploads delta
       = failures (walk self local_dir items remote_dir) (stor_replies delta).
Proof.
  intros E; destruct (upload_loop_count _ _ _ _ _ _ _ _ E) as [d Hd].
  exists d; exact Hd.
Qed.

Lemma upload_directory_count_witness :
  exists delta,
    log (snd (upload_directory deployer src_path src_items src_remote
                (locking "main.js")))
    = (log (locking "main.js") ++ delta)%list
    /\ map fst (stor_replies delta)
       = map snd (walk deployer src_path src_items src_remote)
    /\ 1 = successes (stor_replies delta)
    /\ failed_uploads delta
       = failures (walk deployer src_path src_items src_remote)
           (stor_replies delta).
Proof.
  apply (upload_directory_count deployer src_path src_items src_remote
           (locking "main.js")).
  vm_compute; reflexivity.
Defined.

(** C2 fails as stated: the value returned carries no failure list.  Two
    uploads of the same directory, one failing on [main.js] and one on
    [util.js], return the same value, the number 1. *)
Lemma upload_directory_returns_count_only :
  ~ exists failed_of : nat -> list string,
      forall (w w' : world MemFtp.state) (n : nat),
        upload_directory deployer src_path src_items src_remote w = (Ret n, w') ->
        failed_of n = failed_uploads (skipn (List.length (log w)) (log w')).
Proof.
  intros [failed_of Hf].
  assert (H1 : failed_of 1 = ["/home/bob/site/src/main.js"]).
  { rewrite (Hf (locking "main.js")
                (snd (upload_directory deployer src_path src_items src_remote
                        (locking "main.js"))) 1);
      vm_compute; reflexivity. }
  assert (H2 : failed_of 1 = ["/home/bob/site/src/util.js"]).
  { rewrite (Hf (locking "util.js")
                (snd (upload_directory deployer src_path src_items src_remote
                        (locking "util.js"))) 1);
      vm_compute; reflexivity. }
  rewrite H1 in H2; discriminate.
Qed.

Lemma upload_continues_after_failure_witness :
  upload_loop deployer src_path src_items src_remote 0 (locking "main.js")
  = upload_loop deployer src_path (forest_of [File "util.js"]) src_remote 0
      (mkWorld (srv (locking "main.js"))
         [Sent (STOR (src_remote ++ "/" ++ "main.js")) Perm;
          Print (Failed_to_upload "/home/bob/site/src/main.js")])
  /\ (is_ok Perm = false ->
      In (Print (Failed_to_upload "/home/bob/site/src/main.js"))
         [Sent (STOR (src_remote ++ "/" ++ "main.js")) Perm;
          Print (Failed_to_upload "/home/bob/site/src/main.js")]).
Proof.
  refine (upload_continues_after_failure deployer src_path "main.js"
            (forest_of [File "util.js"]) src_remote 0 (locking "main.js") _).
  vm_compute; reflexivity.
Defined.

(* ===================================================================== *)
(** ** Properties: directories before files *)
(* ===================================================================== *)

Lemma split_slash (a b : string) :
  PyStr.split (a ++ "/" ++ b) = (PyStr.split a ++ PyStr.split b)%list.
Proof.
  change ("/" ++ b) with (String "/" b).
  induction a as [|c a IH]; [reflexivity|].
  cbn [append PyStr.split]; rewrite IH.
  destruct (Ascii.eqb c PyStr.slash); [reflexivity|].
  pose proof (split_not_nil a) as Hn.
  destruct (PyStr.split a) as [|h t]; [congruence | reflexivity].
Qed.

Lemma segments_slash (a b : string) :
  segments (a ++ "/" ++ b) = (segments a ++ segments b)%list.
Proof. unfold segments; now rewrite split_slash, filter_app. Qed.

Lemma segments_child (remote_dir name : string) :
  plain name ->
  segments (remote_dir ++ "/" ++ name) = (segments remote_dir ++ [name])%list.
Proof. intros Hp; now rewrite segments_slash, Hp. Qed.

Lemma strict_prefix_snoc_absurd (base d : list string) (x : string) :
  strict_prefix base d -> strict_prefix d (base ++ [x]) -> False.
Proof.
  intros [y [c ->]] [z [c' Hc]].
  apply (f_equal (@List.length string)) in Hc.
  repeat (rewrite length_app in Hc; cbn [List.length] in Hc); lia.
Qed.

Lemma strict_prefix_below (base p : list string) (x : string) :
  strict_prefix (base ++ [x]) p -> strict_prefix base p.
Proof.
  intros [y [c ->]]; exists x, (y :: c); now rewrite <- app_assoc.
Qed.

Lemma strict_prefix_cases (base d p : list string) (x : string) :
  strict_prefix base d -> strict_prefix d p -> strict_prefix (base ++ [x]) p ->
  d = (base ++ [x])%list \/ strict_prefix (base ++ [x]) d.
Proof.
  intros [y [c ->]] [z [c' ->]] [u [c'' Hp]].
  rewrite <- !app_assoc in Hp; apply app_inv_head in Hp.
  cbn in Hp; injection Hp as -> Hc.
  destruct c as [|v c]; [now left | right].
  exists v, c; now rewrite <- app_assoc.
Qed.

Lemma app_split_at {A : Type} (a b l1 l2 : list A) (e : A) :
  (a ++ b = l1 ++ e :: l2)%list ->
  (exists l, a = l1 ++ e :: l /\ l2 = l ++ b)%list
  \/ (exists l, l1 = a ++ l /\ b = l ++ e :: l2)%list.
Proof.
  revert l1; induction a as [|x a IH]; intros l1 Heq.
  - right; exists l1; now split.
  - destruct l1 as [|y l1]; cbn in Heq; injection Heq as -> Heq.
    + left; exists a; now split.
    + destruct (IH _ Heq) as [[l [-> ->]] | [l [-> ->]]].
      * left; exists l; now split.
      * right; exists l; now split.
Qed.

Lemma attempted_app (pre l : list event) (d : list string) :
  attempted l d -> attempted (pre ++ l) d.
Proof.
  intros [q [r [Hin Hq]]]; exists q, r; split; [|assumption].
  apply in_or_app; now right.
Qed.

Lemma attempted_app_l (l post : list event) (d : list string) :
  attempted l d -> attempted (l ++ post) d.
Proof.
  intros [q [r [Hin Hq]]]; exists q, r; split; [|assumption].
  apply in_or_app; now left.
Qed.

Lemma no_stor_split (delta l1 l2 : list event) (p : string) (a : reply) :
  stor_replies delta = [] -> delta <> (l1 ++ Sent (STOR p) a :: l2)%list.
Proof.
  intros Hs ->; rewrite stor_replies_app in Hs; cbn in Hs.
  now destruct (stor_replies l1).
Qed.

Lemma mkd_before_stor_quiet (base : list string) (delta : list event) :
  stor_replies delta = [] -> mkd_before_stor base delta.
Proof.
  intros Hs l1 p a l2 Heq; exfalso; exact (no_stor_split _ _ _ _ _ Hs Heq).
Qed.

Lemma mkd_before_stor_app (base : list string) (a b : list event) :
  mkd_before_stor base a -> mkd_before_stor base b ->
  mkd_before_stor base (a ++ b).
Proof.
  intros Ha Hb l1 p r l2 Heq.
  destruct (app_split_at _ _ _ _ _ Heq) as [[l [Hl _]] | [l [-> Hl]]].
  - exact (Ha _ _ _ _ Hl).
  - destruct (Hb _ _ _ _ Hl) as [Hp Hd]; split; [assumption|].
    intros d H1 H2; apply attempted_app; now apply Hd.
Qed.

Lemma mkd_before_stor_file (base : list string) (p x : string) (a : reply) (m : msg) :
  segments p = (base ++ [x])%list ->
  mkd_before_stor base [Sent (STOR p) a; Print m].
Proof.
  intros Hp l1 p' a' l2 Heq.
  destruct l1 as [|e l1]; cbn in Heq.
  - injection Heq as <- <- <-; rewrite Hp; split.
    + exists x, []; reflexivity.
    + intros d H1 H2; exfalso; exact (strict_prefix_snoc_absurd _ _ _ H1 H2).
  - injection Heq as _ Heq; destruct l1 as [|e' l1]; cbn in Heq; [discriminate|].
    injection Heq as _ Heq; now destruct l1.
Qed.

(** A sub-directory: after the attempt to create it, what holds below it
    holds below its parent. *)
Lemma mkd_before_stor_lift (base : list string) (x : string)
    (pre sub : list event) :
  stor_replies pre = [] ->
  attempted pre (base ++ [x]) ->
  mkd_before_stor (base ++ [x]) sub ->
  mkd_before_stor base (pre ++ sub).
Proof.
  intros Hq Hat Hsub l1 p a l2 Heq.
  destruct (app_split_at _ _ _ _ _ Heq) as [[l [Hl _]] | [l [-> Hl]]].
  - exfalso; exact (no_stor_split _ _ _ _ _ Hq Hl).
  - destruct (Hsub _ _ _ _ Hl) as [Hp Hd]; split.
    + exact (strict_prefix_below _ _ _ Hp).
    + intros d H1 H2.
      destruct (strict_prefix_cases _ _ _ x H1 H2 Hp) as [-> | H3].
      * now apply attempted_app_l.
      * apply attempted_app; now apply Hd.
Qed.

Section UploaderOrder.

Context {S : Type} `{FtpServer S}.

Lemma try_mkd_attempt (r : string) (w : world S) :
  exists dm,
    log (snd (try_mkd r w)) = (log w ++ dm)%list
    /\ stor_replies dm = []
    /\ attempted dm (segments r).
Proof.
  destruct (try_mkd_log r w) as [tail [Hm Ht]].
  eexists; split; [exact Hm|]; split.
  - destruct Ht as [-> | ->]; reflexivity.
  - eexists _, _; split; [now left | reflexivity].
Qed.

Lemma upload_loop_order (self : AppDeployer) (items : forest) :
  plain_names items ->
  forall (local_dir : Path) (remote_dir : string) (count : nat) (w : world S),
  exists delta,
    log (snd (upload_loop self local_dir items remote_dir count w))
    = (log w ++ delta)%list
    /\ mkd_before_stor (segments remote_dir) delta.
Proof.
  induction items as [|name rest IH|name kids rest IHk IH|name rest IH]
    using forest_induction; cbn [plain_names node_name];
    intros Hplain local_dir remote_dir count w; cbn [upload_loop node_name].
  - exists []; cbn; rewrite app_nil_r; split; [reflexivity|].
    now apply mkd_before_stor_quiet.
  - destruct Hplain as [Hname [_ Hrest]].
    destruct (should_exclude self (path_child local_dir name)).
    + unfold bind, print at 1.
      destruct (IH Hrest local_dir remote_dir count
                  (mkWorld (srv w) (log w ++ [Print (Skipped name)])))
        as [d [Hd Ho]]; cbn [log] in Hd.
      exists ([Print (Skipped name)] ++ d)%list; rewrite Hd, <- app_assoc.
      split; [reflexivity|].
      apply mkd_before_stor_app; [now apply mkd_before_stor_quiet | assumption].
    + unfold bind at 1; rewrite upload_file_run.
      match goal with |- context [upload_loop self local_dir rest remote_dir ?c ?w1] =>
        destruct (IH Hrest local_dir remote_dir c w1) as [d [Hd Ho]] end.
      cbn [log] in Hd; eexists; rewrite Hd, <- app_assoc.
      split; [reflexivity|].
      apply mkd_before_stor_app; [|assumption].
      eapply mkd_before_stor_file; now apply segments_child.
  - destruct Hplain as [Hname [Hkids Hrest]].
    destruct (should_exclude self (path_child local_dir name)).
    + unfold bind, print at 1.
      destruct (IH Hrest local_dir remote_dir count
                  (mkWorld (srv w) (log w ++ [Print (Skipped name)])))
        as [d [Hd Ho]]; cbn [log] in Hd.
      exists ([Print (Skipped name)] ++ d)%list; rewrite Hd, <- app_assoc.
      split; [reflexivity|].
      apply mkd_before_stor_app; [now apply mkd_before_stor_quiet | assumption].
    + unfold bind at 1.
      destruct (try_mkd_attempt (remote_dir ++ "/" ++ name) w) as [dm [Hm [Hq Hat]]].
      rewrite (segments_child _ _ Hname) in Hat.
      destruct (try_mkd (remote_dir ++ "/" ++ name) w) as [[[]|e] w1];
        cbn [snd] in Hm |- *.
      2:{ exists dm; split; [assumption | now apply mkd_before_stor_quiet]. }
      unfold bind at 1.
      destruct (IHk Hkids (path_child local_dir name)
                  (remote_dir ++ "/" ++ name) 0 w1) as [d2 [Hd2 Ho2]].
      rewrite (segments_child _ _ Hname) in Ho2.
      pose proof (mkd_before_stor_lift _ _ _ _ Hq Hat Ho2) as Hlift.
      destruct (upload_loop self (path_child local_dir name) kids
                  (remote_dir ++ "/" ++ name) 0 w1) as [[k|e] w2];
        cbn [snd] in Hd2 |- *.
      2:{ exists (dm ++ d2)%list; rewrite Hd2, Hm, <- app_assoc; now split. }
      destruct (IH Hrest local_dir remote_dir (count + k) w2) as [d3 [Hd3 Ho3]].
      exists ((dm ++ d2) ++ d3)%list; rewrite Hd3, Hd2, Hm, <- !app_assoc.
      split; [reflexivity|].
      rewrite app_assoc; now apply mkd_before_stor_app.
  - destruct Hplain as [Hname [_ Hrest]].
    destruct (should_exclude self (path_child local_dir name)).
    + unfold bind, print at 1.
      destruct (IH Hrest local_dir remote_dir count
                  (mkWorld (srv w) (log w ++ [Print (Skipped name)])))
        as [d [Hd Ho]]; cbn [log] in Hd.
      exists ([Print (Skipped name)] ++ d)%list; rewrite Hd, <- app_assoc.
      split; [reflexivity|].
      apply mkd_before_stor_app; [now apply mkd_before_stor_quiet | assumption].
    + now apply IH.
Qed.

End UploaderOrder.

Lemma find_child_plain (name : string) (f : forest) (n : node) :
  plain_names f -> find_child name f = Some n -> plain_node n.
Proof.
  induction f as [|x rest IH|x kids rest _ IH|x rest IH] using forest_induction;
    cbn [find_child plain_names node_name]; intros Hp; try discriminate;
    destruct Hp as [_ [Hk Hrest]];
    (destruct (String.eqb x name); [intros E; injection E as <-; exact Hk | now apply IH]).
Qed.

Lemma lookup_plain (segs : list string) :
  forall (root n : node), plain_node root -> lookup root segs = Some n -> plain_node n.
Proof.
  induction segs as [|seg more IH]; intros root n Hroot; cbn [lookup].
  - intros E; now injection E as <-.
  - destruct root as [x|x kids|x]; try discriminate.
    destruct (find_child seg kids) as [c|] eqn:Ec; [|discriminate].
    apply IH; exact (find_child_plain _ _ _ Hroot Ec).
Qed.

Lemma local_item_plain (root n : node) (item_name : string) :
  plain_node root -> local_item_of root item_name = Some n -> plain_node n.
Proof.
  unfold local_item_of; destruct (PyStr.startswith item_name "/"); [discriminate|].
  apply lookup_plain.
Qed.

Lemma single_segment (s : string) :
  List.length (segments s) = 1 -> exists x, segments s = [x].
Proof.
  destruct (segments s) as [|x [|y l]]; try discriminate; now exists x.
Qed.

(** C4, as the code has it.  In the upload pass of [deploy], at the top
    level and at every level of the recursion, the creation of every remote
    directory that lies between the deployment root and a file has been
    attempted (an [MKD] was sent for it) strictly before the upload of that
    file is issued.  The answer to the attempt is not checked: a refusal is
    passed over and the upload below is issued all the same. *)
Theorem mkd_attempted_before_upload {S : Type} `{FtpServer S}
    (self : AppDeployer) (root : node) (items : list string)
    (total_uploaded : nat) (w : world S) :
  plain_node root ->
  Forall (fun item_name => List.length (segments item_name) = 1) items ->
  exists delta,
    log (snd (upload_items_loop self root items total_uploaded w))
    = (log w ++ delta)%list
    /\ mkd_before_stor (segments (remote_app_path self)) delta.
Proof.
  intros Hroot Hitems; revert total_uploaded w.
  induction Hitems as [|item_name rest Hone _ IH]; intros total w;
    cbn [upload_items_loop].
  - exists []; cbn; rewrite app_nil_r; split; [reflexivity|].
    now apply mkd_before_stor_quiet.
  - destruct (single_segment _ Hone) as [x Hx].
    assert (Hseg : segments (remote_app_path self ++ "/" ++ item_name)
                   = (segments (remote_app_path self) ++ [x])%list)
      by now rewrite segments_slash, Hx.
    destruct (local_item_of root item_name) as [[name|name kids|name]|] eqn:El.
    + unfold bind at 1; rewrite upload_file_run.
      match goal with |- context [upload_items_loop self root rest ?c ?w1] =>
        destruct (IH c w1) as [d [Hd Ho]] end.
      cbn [log] in Hd; eexists; rewrite Hd, <- app_assoc.
      split; [reflexivity|].
      apply mkd_before_stor_app; [|assumption].
      eapply mkd_before_stor_file; exact Hseg.
    + unfold bind at 1.
      destruct (try_mkd_attempt (remote_app_path self ++ "/" ++ item_name) w)
        as [dm [Hm [Hq Hat]]].
      rewrite Hseg in Hat.
      destruct (try_mkd (remote_app_path self ++ "/" ++ item_name) w)
        as [[[]|e] w1]; cbn [snd] in Hm |- *.
      2:{ exists dm; split; [assumption | now apply mkd_before_stor_quiet]. }
      unfold bind at 1, upload_directory.
      pose proof (local_item_plain _ _ _ Hroot El) as Hkids; cbn in Hkids.
      destruct (upload_loop_order self kids Hkids
                  (path_div (local_app_dir self) item_name)
                  (remote_app_path self ++ "/" ++ item_name) 0 w1)
        as [d2 [Hd2 Ho2]].
      rewrite Hseg in Ho2.
      pose proof (mkd_before_stor_lift _ _ _ _ Hq Hat Ho2) as Hlift.
      destruct (upload_loop self (path_div (local_app_dir self) item_name) kids
                  (remote_app_path self ++ "/" ++ item_name) 0 w1)
        as [[k|e] w2]; cbn [snd] in Hd2 |- *.
      2:{ exists (dm ++ d2)%list; rewrite Hd2, Hm, <- app_assoc; now split. }
      destruct (IH (total + k) w2) as [d3 [Hd3 Ho3]].
      exists ((dm ++ d2) ++ d3)%list; rewrite Hd3, Hd2, Hm, <- !app_assoc.
      split; [reflexivity|].
      rewrite app_assoc; now apply mkd_before_stor_app.
    + apply IH.
    + unfold bind, print at 1.
      match goal with |- context [upload_items_loop self root rest ?c ?w1] =>
        destruct (IH c w1) as [d [Hd Ho]] end.
      cbn [log] in Hd; eexists; rewrite Hd, <- app_assoc.
      split; [reflexivity|].
      apply mkd_before_stor_app; [now apply mkd_before_stor_quiet | assumption].
Qed.

Lemma mkd_attempted_before_upload_witness :
  exists delta,
    log (snd (upload_items_loop deployer site (upload_items deployer) 0
                (mkWorld (remote [] [["src"]] []) [])))
    = ([] ++ delta)%list
    /\ mkd_before_stor (segments (remote_app_path deployer)) delta.
Proof.
  apply (mkd_attempted_before_upload deployer site (upload_items deployer) 0
           (mkWorld (remote [] [["src"]] []) [])).
  - cbn; repeat split; reflexivity.
  - repeat constructor.
Defined.

(** C4 fails as stated.  The server holds a plain file named [src] in the
    application directory: the [MKD] for [src/] is refused and passed over,
    nothing before has created or entered that directory, and the upload
    of [src/main.js] is issued all the same; the directory still does not
    exist when the run ends. *)
Lemma upload_below_unconfirmed_directory :
  let r := deploy deployer site (reach (remote [] [["src"]] [])) false 5 in
  exists l1 p a l2,
    output r = (l1 ++ Sent (STOR p) a :: l2)%list
    /\ strict_prefix (app_dir ++ ["src"]) (segments p)
    /\ ~ created_or_confirmed l1 (app_dir ++ ["src"])
    /\ option_map (fun s => MemFtp.is_dir s (app_dir ++ ["src"])) (final r)
       = Some false.
Proof.
  cbn zeta.
  exists (firstn 18 (output (deploy deployer site (reach (remote [] [["src"]] [])) false 5))),
    "bobd77.sg-host.com/public_html/app/src//main.js", Perm,
    (skipn 19 (output (deploy deployer site (reach (remote [] [["src"]] [])) false 5))).
  split; [vm_compute; reflexivity|].
  split; [exists "main.js", []; vm_compute; reflexivity|].
  split; [|vm_compute; reflexivity].
  intros [q [lines [Hq Hin]]].
  vm_compute in Hin.
  repeat match goal with
         | H : _ \/ _ |- _ => destruct H as [H | H]
         | H : Sent _ _ = Sent _ _ |- _ =>
             first [discriminate H
                   | injection H as <- _; vm_compute in Hq; discriminate Hq]
         | H : Print _ = Sent _ _ |- _ => discriminate H
         | H : False |- _ => destruct H
         end.
Qed.

(* ===================================================================== *)
(** ** Properties: the remote cleaner *)
(* ===================================================================== *)

Lemma printed_app (a b : list event) :
  printed (a ++ b) = (printed a ++ printed b)%list.
Proof. apply flat_map_app. Qed.

Section CleanerFacts.

Context {S : Type} `{FtpServer S}.


(** A block [try: ... except: pass] always returns. *)
Lemma try_all_pass_returns (m : M S unit) (w : world S) :
  fst (try_all m (ret tt) w) = Ret tt.
Proof.
  unfold try_all, ret; destruct (m w) as [[[]|e] w']; reflexivity.
Qed.

(** [remove_directory] never raises while the interpreter still allows the
    call. *)
Lemma remove_directory_returns (d : nat) (path : string) (w : world S) :
  fst (remove_directory (Datatypes.S d) path w) = Ret tt.
Proof. apply try_all_pass_returns. Qed.

(** The loop of [remove_directory] prints nothing, given that the calls it
    makes print nothing. *)
Lemma remove_items_silent (recurse : string -> M S unit) :
  (forall item w, exists delta,
      log (snd (recurse item w)) = (log w ++ delta)%list /\ printed delta = []) ->
  forall items w, exists delta,
    log (snd (remove_items recurse items w)) = (log w ++ delta)%list
    /\ printed delta = [].
Proof.
  intros Hrec; unfold remove_items.
  induction items as [|item rest IH]; intros w; cbn [for_each].
  - exists []; cbn; now rewrite app_nil_r.
  - unfold bind at 1.
    assert (Hbody : exists delta,
               log (snd ((if is_dot item then ret tt
                          else try_perm (send (DELE item);; ret tt) (recurse item)) w))
               = (log w ++ delta)%list /\ printed delta = []).
    { destruct (is_dot item).
      - exists []; cbn; now rewrite app_nil_r.
      - unfold try_perm, bind, send, ret.
        destruct (ftp_step (srv w) (DELE item)) as [[l| |] s1]; cbn.
        + eexists; split; reflexivity.
        + match goal with |- context [recurse item ?w1] =>
            destruct (Hrec item w1) as [d [Hd Hp]] end.
          cbn [log] in Hd; eexists; rewrite Hd, <- app_assoc; split; [reflexivity|].
          now rewrite printed_app, Hp.
        + eexists; split; reflexivity. }
    destruct Hbody as [d1 [Hd1 Hp1]].
    match goal with |- context [match ?body w with _ => _ end] =>
      destruct (body w) as [[[]|e] w1] end; cbn [snd] in Hd1 |- *.
    + destruct (IH w1) as [d2 [Hd2 Hp2]].
      exists (d1 ++ d2)%list; rewrite Hd2, Hd1, <- app_assoc; split; [reflexivity|].
      now rewrite printed_app, Hp1, Hp2.
    + exists d1; now split.
Qed.

(** Nothing is printed inside [remove_directory], at any depth. *)
Lemma remove_directory_silent (depth : nat) :
  forall (path : string) (w : world S), exists delta,
    log (snd (remove_directory depth path w)) = (log w ++ delta)%list
    /\ printed delta = [].
Proof.
  induction depth as [|d IH]; intros path w; cbn [remove_directory].
  - exists []; cbn; now rewrite app_nil_r.
  - unfold try_all, bind at 1, send at 1.
    destruct (ftp_step (srv w) (CWD path)) as [[l| |] s1]; cbn;
      try (eexists; split; reflexivity).
    unfold bind at 1, send at 1; cbn.
    destruct (ftp_step s1 NLST) as [[items| |] s2]; cbn;
      try (eexists; rewrite <- app_assoc; split; reflexivity).
    unfold bind at 1.
    match goal with |- context [remove_items _ items ?w2] =>
      destruct (remove_items_silent (remove_directory d) IH items w2)
        as [d3 [Hd3 Hp3]];
      destruct (remove_items (remove_directory d) items w2) as [[[]|e] w3]
    end; cbn [snd log] in Hd3 |- *.
    2:{ unfold ret; cbn; eexists; rewrite Hd3, <- !app_assoc; split; [reflexivity|].
        now rewrite !printed_app, Hp3. }
    unfold bind, send, ret.
    destruct (ftp_step (srv w3) (CWD "..")) as [[l'| |] s4]; cbn;
      try (eexists; rewrite Hd3, <- !app_assoc; split;
           [reflexivity | now rewrite !printed_app, Hp3]).
    destruct (ftp_step s4 (RMD path)) as [[l''| |] s5]; cbn;
      (eexists; rewrite Hd3, <- !app_assoc; split;
       [reflexivity | now rewrite !printed_app, Hp3]).
Qed.

End CleanerFacts.




(** C8. When the first change of directory of [clean_remote_directory] is
    refused with a permission error, the call returns normally after
    printing one line: no [DELE] and no [RMD] is sent, and what follows the
    call in [deploy] runs. *)
Theorem clean_missing_directory {S : Type} `{FtpServer S}
    (depth : nat) (remote_path : string) (w : world S) :
  fst (ftp_step (srv w) (CWD remote_path)) = Perm ->
  clean_remote_directory depth remote_path w
  = (Ret tt,
     mkWorld (snd (ftp_step (srv w) (CWD remote_path)))
       (log w ++ [Sent (CWD remote_path) Perm;
                  Print (Remote_directory_missing remote_path)]))
  /\ deletions [Sent (CWD remote_path) Perm;
                Print (Remote_directory_missing remote_path)] = []
  /\ forall (A : Type) (next : M S A),
       (clean_remote_directory depth remote_path ;; next) w
       = next (snd (clean_remote_directory depth remote_path w)).
Proof.
  intros Hperm.
  assert (E : clean_remote_directory depth remote_path w
              = (Ret tt,
                 mkWorld (snd (ftp_step (srv w) (CWD remote_path)))
                   (log w ++ [Sent (CWD remote_path) Perm;
                              Print (Remote_directory_missing remote_path)]))).
  { unfold clean_remote_directory, try_perm, bind at 1, send at 1, print.
    destruct (ftp_step (srv w) (CWD remote_path)) as [r s1];
      cbn [fst snd] in *; subst r; cbn.
    now rewrite <- app_assoc. }
  repeat split; [exact E|].
  intros A next; unfold bind; now rewrite E.
Qed.

Lemma clean_missing_directory_witness :
  clean_remote_directory 5 "nowhere" root_session
  = (Ret tt,
     mkWorld (srv root_session)
       (log root_session ++ [Sent (CWD "nowhere") Perm;
                             Print (Remote_directory_missing "nowhere")]))
  /\ deletions [Sent (CWD "nowhere") Perm;
                Print (Remote_directory_missing "nowhere")] = []
  /\ forall (A : Type) (next : M MemFtp.state A),
       (clean_remote_directory 5 "nowhere" ;; next) root_session
       = next (snd (clean_remote_directory 5 "nowhere" root_session)).
Proof.
  refine (clean_missing_directory 5 "nowhere" root_session _).
  vm_compute; reflexivity.
Defined.

(* ===================================================================== *)
(** ** Properties: the orchestrator *)
(* ===================================================================== *)

Section OrchestratorFacts.

Context {S : Type} `{FtpServer S}.








End OrchestratorFacts.

Section DeployResult.

Context {S : Type} `{FtpServer S}.

Lemma bind_returns {A B : Type} (m : M S A) (k : A -> M S B)
    (w w' : world S) (a : A) :
  m w = (Ret a, w') -> bind m k w = k a w'.
Proof. intros E; unfold bind; now rewrite E. Qed.

Lemma bind_raises {A B : Type} (m : M S A) (k : A -> M S B)
    (w w' : world S) (e : exn) :
  m w = (Raise e, w') -> bind m k w = (Raise e, w').
Proof. intros E; unfold bind; now rewrite E. Qed.

Lemma print_then {B : Type} (m : msg) (k : unit -> M S B) (w : world S) :
  bind (print m) k w = k tt (mkWorld (srv w) (log w ++ [Print m])).
Proof. reflexivity. Qed.

Lemma send_then {B : Type} (c : cmd) (k : list string -> M S B) (w : world S) :
  bind (send c) k w
  = match ftp_step (srv w) c with
    | (Ok lines, s') => k lines (mkWorld s' (log w ++ [Sent c (Ok lines)]))
    | (Perm, s') => (Raise error_perm, mkWorld s' (log w ++ [Sent c Perm]))
    | (Fail, s') => (Raise error_other, mkWorld s' (log w ++ [Sent c Fail]))
    end.
Proof.
  unfold bind, send; now destruct (ftp_step (srv w) c) as [[l| |] s'].
Qed.



End DeployResult.


Section DeployAbandoned.

Context {S : Type} `{FtpServer S}.





















End DeployAbandoned.




Lemma all_missing_skipped {S : Type} `{FtpServer S}
    (self : AppDeployer) (root : node) (items : list string) :
  Forall (fun i => local_item_of root i = None) items ->
  forall (total : nat) (s : S) (l0 : list event),
    upload_items_loop self root items total (mkWorld s l0)
    = (Ret total,
       mkWorld s (l0 ++ map (fun i => Print (Skipped_missing_item i)) items)).
Proof.
  induction 1 as [|i more Hi _ IH]; intros total s l0.
  - cbn [upload_items_loop map]; unfold ret; now rewrite app_nil_r.
  - cbn [upload_items_loop map]; rewrite Hi.
    unfold bind, print at 1; cbn [srv log].
    rewrite IH, <- app_assoc; reflexivity.
Qed.

(** C10. A configured top-level item whose local path does not exist is
    skipped: [deploy] prints one line for it, sends nothing, leaves the
    count as it is and goes on with the remaining items; a list of missing
    items alone completes with the count unchanged. *)
Theorem missing_item_skipped {S : Type} `{FtpServer S}
    (self : AppDeployer) (root : node) (item_name : string)
    (rest : list string) (total_uploaded : nat) (w : world S) :
  local_item_of root item_name = None ->
  upload_items_loop self root (item_name :: rest) total_uploaded w
  = upload_items_loop self root rest total_uploaded
      (mkWorld (srv w) (log w ++ [Print (Skipped_missing_item item_name)]))
  /\ (Forall (fun i => local_item_of root i = None) rest ->
      upload_items_loop self root (item_name :: rest) total_uploaded w
      = (Ret total_uploaded,
         mkWorld (srv w)
           (log w ++ map (fun i => Print (Skipped_missing_item i))
                         (item_name :: rest)))).
Proof.
  intros Hmiss.
  assert (Hstep : upload_items_loop self root (item_name :: rest) total_uploaded w
                  = upload_items_loop self root rest total_uploaded
                      (mkWorld (srv w)
                         (log w ++ [Print (Skipped_missing_item item_name)])))
    by (cbn [upload_items_loop]; now rewrite Hmiss).
  split; [exact Hstep|].
  intros Hall; rewrite Hstep, (all_missing_skipped self root rest Hall).
  cbn [map]; now rewrite <- app_assoc.
Qed.

Lemma missing_item_skipped_witness :
  upload_items_loop deployer site ["favicon.ico"; "styles/"] 1
    (mkWorld blocked [])
  = upload_items_loop deployer site ["styles/"] 1
      (mkWorld blocked ([] ++ [Print (Skipped_missing_item "favicon.ico")]))
  /\ (Forall (fun i => local_item_of site i = None) ["styles/"] ->
      upload_items_loop deployer site ["favicon.ico"; "styles/"] 1
        (mkWorld blocked [])
      = (Ret 1,
         mkWorld blocked
           ([] ++ map (fun i => Print (Skipped_missing_item i))
                      ["favicon.ico"; "styles/"]))).
Proof.
  refine (missing_item_skipped deployer site "favicon.ico" ["styles/"] 1
            (mkWorld blocked []) _).
  vm_compute; reflexivity.
Defined.

(* ===================================================================== *)
(** ** Runs of the concrete deployment *)
(* ===================================================================== *)

Example prefixes_of_slashed_path :
  prefixes "/a//b/c/" = ["a"; "a/b"; "a/b/c"].
Proof. reflexivity. Qed.

Example compiled_python_is_excluded :
  should_exclude deployer (path_child src_path "cache.pyc") = true
  /\ should_exclude deployer (path_child src_path "main.js") = false
  /\ should_exclude deployer (path_child src_path "server.py") = true.
Proof. repeat split; reflexivity. Qed.

(** On an empty application directory, a run with [--clean] uploads the
    three files of the site, skips the two missing items and exits 0. *)
Example clean_deployment_uploads_site :
  let r := main environ here site (reach (remote [] [] [])) true false 5 in
  fst r = 0
  /\ In (Print (Deployment_complete 3)) (output (snd r))
  /\ printed (filter (fun e => match e with
                               | Print (Skipped_missing_item _) => true
                               | _ => false
                               end) (output (snd r)))
     = [Skipped_missing_item "favicon.ico"; Skipped_missing_item "styles/"]
  /\ option_map MemFtp.files (final (snd r))
     = Some [app_dir ++ ["index.html"]; app_dir ++ ["src"; "main.js"];
             app_dir ++ ["src"; "util.js"]]%list.
Proof. vm_compute; repeat split; auto 40. Qed.

(** Without credentials nothing is sent and the status is 1; [--dry-run]
    sends nothing either and leaves with status 0. *)
Example no_credentials_exit_status :
  main (fun _ => None) here site (reach (remote [] [] [])) false false 5
  = (1, mkRun false [Print Credentials_not_configured] None)
  /\ fst (main (fun _ => None) here site (reach (remote [] [] [])) false true 5) = 0.
Proof. split; reflexivity. Qed.

(* ===================================================================== *)
(** ** Further properties: the exclusion matcher *)
(* ===================================================================== *)

Lemma is_substring_refl (s : string) : is_substring s s.
Proof.
  exists "", ""; cbn.
  induction s as [|c s IH]; cbn; [reflexivity | now rewrite <- IH].
Qed.

Lemma is_substring_prefixed (sub s pre : string) :
  is_substring sub s -> is_substring sub (pre ++ s).
Proof.
  intros [a [b ->]]; exists (pre ++ a), b; now rewrite <- append_assoc.
Qed.

Lemma is_substring_suffixed (sub s post : string) :
  is_substring sub s -> is_substring sub (s ++ post).
Proof.
  intros [a [b ->]]; exists a, (b ++ post); now rewrite <- !append_assoc.
Qed.

Lemma last_in_join (x : string) (l : list string) :
  is_substring (last (x :: l) "") (PyStr.join (x :: l)).
Proof.
  revert x; induction l as [|y l IH]; intros x.
  - apply is_substring_refl.
  - change (last (x :: y :: l) "") with (last (y :: l) "").
    change (PyStr.join (x :: y :: l)) with (x ++ "/" ++ PyStr.join (y :: l)).
    do 2 apply is_substring_prefixed; apply IH.
Qed.

(** The final name of a path occurs in its string form. *)
Lemma name_in_path_str (p : Path) : is_substring (path_name p) (path_str p).
Proof.
  unfold path_name, path_str; destruct (parts p) as [|x l].
  - exists "", (if anchor p then "/" else "."); reflexivity.
  - apply is_substring_prefixed, last_in_join.
Qed.

Lemma exclude_loop_hits (R : list string) (P : Path) :
  exclude_loop R P = existsb (pattern_hits P) R.
Proof.
  induction R as [|pat R IH]; [reflexivity|].
  cbn [exclude_loop existsb]; unfold pattern_hits at 1.
  destruct (PyStr.contains (path_str P) pat) eqn:Hc; [reflexivity|].
  destruct (String.eqb (path_name P) pat) eqn:He.
  - apply String.eqb_eq in He; subst pat.
    pose proof (name_in_path_str P) as Hn; apply contains_spec in Hn; congruence.
  - cbn [orb].
    destruct (PyStr.startswith pat "*." && PyStr.endswith (path_name P) (PyStr.slice1 pat));
      [reflexivity | exact IH].
Qed.

(** X1. The exact-name test of [should_exclude] never decides: a pattern
    equal to the final name of a path already occurs in the string of the
    path, so the answer is that of the substring test and the [*.ext] test
    alone, for some pattern. *)
Theorem should_exclude_name_test_redundant (self : AppDeployer) (P : Path) :
  should_exclude self P = existsb (pattern_hits P) (exclude_patterns self)
  /\ PyStr.contains (path_str P) (path_name P) = true.
Proof.
  split; [apply exclude_loop_hits|].
  apply contains_spec, name_in_path_str.
Qed.

(** X2. Adding, repeating or reordering patterns never takes a path out of
    the exclusion: a path excluded under a list of patterns is excluded
    under every list that holds those patterns. *)
Theorem should_exclude_monotone (self self' : AppDeployer) (P : Path) :
  incl (exclude_patterns self) (exclude_patterns self') ->
  should_exclude self P = true -> should_exclude self' P = true.
Proof.
  unfold should_exclude; rewrite !exclude_loop_hits, !existsb_exists.
  intros Hincl [pat [Hin Hp]]; exists pat; split; [now apply Hincl | assumption].
Qed.

Lemma should_exclude_monotone_witness :
  should_exclude
    (mkDeployer "h" "u" "p" "app" here [] ["*.md"; "tmp"; "tmp"; ".git"])
    (path_child here "tmp") = true.
Proof.
  apply (should_exclude_monotone
           (mkDeployer "h" "u" "p" "app" here [] [".git"; "tmp"])
           (mkDeployer "h" "u" "p" "app" here [] ["*.md"; "tmp"; "tmp"; ".git"])).
  - intros x [<- | [<- | []]]; cbn; auto.
  - vm_compute; reflexivity.
Defined.

Lemma path_str_child (p : Path) (name : string) :
  rooted p -> exists r, path_str (path_child p name) = path_str p ++ r.
Proof.
  unfold rooted, path_str, path_child; cbn [parts anchor].
  destruct (parts p) as [|x l]; intros Hr.
  - destruct Hr as [Hr | ->]; [congruence|].
    exists name; reflexivity.
  - exists ("/" ++ name).
    change ((x :: l) ++ [name])%list with (x :: (l ++ [name]))%list.
    destruct (l ++ [name])%list as [|y l'] eqn:E; [now destruct l|].
    rewrite <- E; change (x :: (l ++ [name]))%list with ((x :: l) ++ [name])%list.
    now rewrite join_snoc, <- append_assoc.
Qed.

Lemma substring_inherited (p : Path) (name pattern : string) :
  rooted p ->
  PyStr.contains (path_str p) pattern = true ->
  PyStr.contains (path_str (path_child p name)) pattern = true.
Proof.
  intros Hr Hc; apply contains_spec in Hc; apply contains_spec.
  destruct (path_str_child p name Hr) as [r ->].
  now apply is_substring_suffixed.
Qed.

Lemma rooted_child (p : Path) (name : string) : rooted (path_child p name).
Proof. left; cbn; now destruct (parts p). Qed.

(** X3. An exclusion by the substring test is inherited: when a pattern
    occurs in the string of a path, every entry below that path, at any
    depth, is excluded too. *)
Theorem should_exclude_inherited (self : AppDeployer) (p : Path)
    (pattern : string) (names : list string) :
  rooted p ->
  In pattern (exclude_patterns self) ->
  PyStr.contains (path_str p) pattern = true ->
  should_exclude self (fold_left path_child names p) = true.
Proof.
  intros Hr Hin; revert p Hr; induction names as [|n names IH]; intros p Hr Hc.
  - unfold should_exclude; rewrite exclude_loop_hits; apply existsb_exists.
    exists pattern; split; [assumption|]; unfold pattern_hits; cbn; now rewrite Hc.
  - cbn [fold_left]; apply IH; [apply rooted_child | now apply substring_inherited].
Qed.

Lemma should_exclude_inherited_witness :
  should_exclude deployer
    (fold_left path_child ["hooks"; "pre-commit"] (path_child here ".git")) = true.
Proof.
  apply (should_exclude_inherited deployer (path_child here ".git") ".git").
  - left; discriminate.
  - cbn; auto.
  - vm_compute; reflexivity.
Defined.

(* ===================================================================== *)
(** ** Further properties: the tree uploader *)
(* ===================================================================== *)

(** X4. When an exclusion pattern occurs in the string of the local
    directory itself, [upload_directory] uploads nothing: every entry is
    skipped, no command is sent, and the count returned is 0. *)
Theorem upload_directory_excluded_root {S : Type} `{FtpServer S}
    (self : AppDeployer) (local_dir : Path) (pattern : string)
    (items : forest) (remote_dir : string) (w : world S) :
  rooted local_dir ->
  In pattern (exclude_patterns self) ->
  PyStr.contains (path_str local_dir) pattern = true ->
  upload_directory self local_dir items remote_dir w
  = (Ret 0,
     mkWorld (srv w)
       (log w ++ map (fun item => Print (Skipped (node_name item)))
                     (items_of items))).
Proof.
  intros Hr Hin Hc; unfold upload_directory.
  generalize 0 as count; revert w.
  induction items as [|item rest IH]; intros w count.
  - cbn [upload_loop items_of map]; unfold ret; rewrite app_nil_r; now destruct w.
  - cbn [upload_loop items_of map].
    assert (Hex : should_exclude self (path_child local_dir (node_name item)) = true).
    { unfold should_exclude; rewrite exclude_loop_hits; apply existsb_exists.
      exists pattern; split; [assumption|]; unfold pattern_hits.
      now rewrite (substring_inherited _ _ _ Hr Hc). }
    rewrite Hex; unfold bind, print at 1; rewrite IH; cbn [srv log].
    now rewrite <- app_assoc.
Qed.

Lemma upload_directory_excluded_root_witness :
  upload_directory deployer (mkPath true ["home"; "bob"; "original"; "src"])
    src_items src_remote (locking "main.js")
  = (Ret 0,
     mkWorld (srv (locking "main.js"))
       (log (locking "main.js")
        ++ map (fun item => Print (Skipped (node_name item)))
               (items_of src_items))).
Proof.
  apply (upload_directory_excluded_root deployer
           (mkPath true ["home"; "bob"; "original"; "src"]) "original").
  - left; discriminate.
  - cbn; auto 10.
  - vm_compute; reflexivity.
Defined.

Section Confinement.

Context {S : Type} `{FtpServer S}.

Lemma confined_ret {A : Type} (allowed : event -> Prop) (a : A) :
  confined allowed (ret (S := S) a).
Proof. intros w; exists []; cbn; now rewrite app_nil_r. Qed.

Lemma confined_raise {A : Type} (allowed : event -> Prop) (e : exn) :
  confined allowed (raise (S := S) (A := A) e).
Proof. intros w; exists []; cbn; now rewrite app_nil_r. Qed.

Lemma confined_print (allowed : event -> Prop) (m : msg) :
  allowed (Print m) -> confined allowed (print (S := S) m).
Proof. intros Hm w; exists [Print m]; cbn; split; [reflexivity | now constructor]. Qed.

Lemma confined_send (allowed : event -> Prop) (c : cmd) :
  (forall r, allowed (Sent c r)) -> confined allowed (send c).
Proof.
  intros Hc w; unfold send.
  destruct (ftp_step (srv w) c) as [r s1]; cbn.
  exists [Sent c r]; split; [reflexivity | now constructor].
Qed.

Lemma confined_bind {A B : Type} (allowed : event -> Prop)
    (m : M S A) (k : A -> M S B) :
  confined allowed m -> (forall a, confined allowed (k a)) ->
  confined allowed (bind m k).
Proof.
  intros Hm Hk w; unfold bind.
  destruct (Hm w) as [d1 [Hd1 Ha1]].
  destruct (m w) as [[a|e] w1]; cbn [snd] in *.
  - destruct (Hk a w1) as [d2 [Hd2 Ha2]].
    exists (d1 ++ d2)%list; rewrite Hd2, Hd1, <- app_assoc.
    split; [reflexivity | now apply Forall_app].
  - now exists d1.
Qed.

Lemma confined_try_perm {A : Type} (allowed : event -> Prop) (m h : M S A) :
  confined allowed m -> confined allowed h -> confined allowed (try_perm m h).
Proof.
  intros Hm Hh w; unfold try_perm.
  destruct (Hm w) as [d1 [Hd1 Ha1]].
  destruct (m w) as [[a|[| |]] w1]; cbn [snd] in *; try (now exists d1).
  destruct (Hh w1) as [d2 [Hd2 Ha2]].
  exists (d1 ++ d2)%list; rewrite Hd2, Hd1, <- app_assoc.
  split; [reflexivity | now apply Forall_app].
Qed.

Lemma confined_try_all {A : Type} (allowed : event -> Prop) (m h : M S A) :
  confined allowed m -> confined allowed h -> confined allowed (try_all m h).
Proof.
  intros Hm Hh w; unfold try_all.
  destruct (Hm w) as [d1 [Hd1 Ha1]].
  destruct (m w) as [[a|e] w1]; cbn [snd] in *; [now exists d1|].
  destruct (Hh w1) as [d2 [Hd2 Ha2]].
  exists (d1 ++ d2)%list; rewrite Hd2, Hd1, <- app_assoc.
  split; [reflexivity | now apply Forall_app].
Qed.

Lemma confined_for_each {A : Type} (allowed : event -> Prop)
    (l : list A) (body : A -> M S unit) :
  (forall x, In x l -> confined allowed (body x)) ->
  confined allowed (for_each l body).
Proof.
  induction l as [|x l IH]; intros Hb; cbn [for_each].
  - apply confined_ret.
  - apply confined_bind; [apply Hb; now left|].
    intros _; apply IH; intros y Hy; apply Hb; now right.
Qed.

Lemma confined_weaken {A : Type} (allowed allowed' : event -> Prop) (m : M S A) :
  (forall e, allowed e -> allowed' e) -> confined allowed m -> confined allowed' m.
Proof.
  intros Hw Hm w; destruct (Hm w) as [d [Hd Ha]].
  exists d; split; [assumption|].
  eapply Forall_impl; [exact Hw | exact Ha].
Qed.

Lemma upload_file_confined (local_file : Path) (remote_file : string) :
  confined (only_commands is_mkd_or_stor) (upload_file local_file remote_file).
Proof.
  unfold upload_file; apply confined_try_all; repeat apply confined_bind;
    intros; first [apply confined_send; intros; reflexivity
                  | apply confined_print; exact I
                  | apply confined_ret].
Qed.

Lemma try_mkd_confined (class : cmd -> bool) (r : string) :
  class (MKD r) = true -> confined (only_commands class) (try_mkd r).
Proof.
  intros Hc; unfold try_mkd; apply confined_try_perm; repeat apply confined_bind;
    intros; first [apply confined_send; intros; exact Hc
                  | apply confined_print; exact I
                  | apply confined_ret].
Qed.

Lemma upload_loop_confined (self : AppDeployer) (items : forest) :
  forall local_dir remote_dir count,
    confined (only_commands is_mkd_or_stor)
      (upload_loop self local_dir items remote_dir count).
Proof.
  induction items as [|name rest IH|name kids rest IHk IH|name rest IH]
    using forest_induction; intros local_dir remote_dir count;
    cbn [upload_loop node_name]; try apply confined_ret;
    destruct (should_exclude self (path_child local_dir name));
    try (apply confined_bind; [apply confined_print; exact I | intros; apply IH]).
  - apply confined_bind; [apply upload_file_confined | intros; apply IH].
  - apply confined_bind; [now apply try_mkd_confined | intros _].
    apply confined_bind; [apply IHk | intros; apply IH].
  - apply IH.
Qed.

End Confinement.

(** X5. [upload_directory] only creates and stores: every command it
    sends, at any depth of the walk and whatever the server answers, is an
    [MKD] or a [STOR]; it never deletes, lists or changes directory. *)
Theorem upload_directory_only_creates_and_stores {S : Type} `{FtpServer S}
    (self : AppDeployer) (local_dir : Path) (items : forest)
    (remote_dir : string) :
  confined (only_commands is_mkd_or_stor)
    (upload_directory self local_dir items remote_dir).
Proof. apply upload_loop_confined. Qed.

Lemma outcomes_partition (files : list (Path * string))
    (answers : list (string * reply)) :
  List.length answers = List.length files ->
  successes answers + List.length (failures files answers) = List.length files.
Proof.
  unfold successes, failures; rewrite length_map.
  revert answers; induction files as [|f files IH]; intros [|a answers] Hlen;
    try discriminate; [reflexivity|].
  cbn [combine filter snd List.length].
  injection Hlen as Hlen; specialize (IH _ Hlen).
  destruct (is_ok (snd a)); cbn [negb List.length]; lia.
Qed.

(** X7. Every file of the walk that is not excluded is accounted for: when
    [upload_directory] returns, the count it returns plus the number of
    failure lines it printed is the number of those files. *)
Theorem upload_directory_accounts_for_files {S : Type} `{FtpServer S}
    (self : AppDeployer) (local_dir : Path) (items : forest)
    (remote_dir : string) (w w' : world S) (n : nat) :
  upload_directory self local_dir items remote_dir w = (Ret n, w') ->
  n + List.length (failed_uploads (skipn (List.length (log w)) (log w')))
  = List.length (walk self local_dir items remote_dir).
Proof.
  intros E; destruct (upload_loop_count _ _ _ _ _ _ _ _ E) as [d [Hd [Hs [Hn Hf]]]].
  rewrite Hd, skipn_app, Nat.sub_diag, skipn_all; cbn [app skipn].
  rewrite Hn, Hf; cbn [Nat.add].
  apply outcomes_partition.
  now rewrite <- (length_map fst), Hs, length_map.
Qed.

Lemma upload_directory_accounts_for_files_witness :
  1 + List.length
        (failed_uploads
           (skipn (List.length (log (locking "main.js")))
              (log (snd (upload_directory deployer src_path src_items
                           src_remote (locking "main.js"))))))
  = List.length (walk deployer src_path src_items src_remote).
Proof.
  apply (upload_directory_accounts_for_files deployer src_path src_items
           src_remote (locking "main.js")).
  vm_compute; reflexivity.
Defined.

(* ===================================================================== *)
(** ** Further properties: the remote directory ensurer *)
(* ===================================================================== *)

Section EnsurerMore.

Context {S : Type} `{FtpServer S}.

Lemma ensure_loop_skips_empty (parts : list string) :
  forall (cur : string) (w : world S),
    ensure_loop parts cur w = ensure_loop (filter PyStr.nonempty parts) cur w.
Proof.
  induction parts as [|part rest IH]; intros cur w; [reflexivity|].
  cbn [ensure_loop filter].
  destruct (PyStr.nonempty part) eqn:Hp; [|apply IH].
  cbn [ensure_loop]; rewrite Hp; unfold bind.
  destruct (ensure_dir _ w) as [[[]|e] w1]; [apply IH | reflexivity].
Qed.

Lemma create_remote_directory_segments (path : string) (w : world S) :
  create_remote_directory path w = ensure_loop (segments path) "" w.
Proof.
  unfold create_remote_directory; rewrite ensure_loop_skips_empty.
  fold (segments (PyStr.strip path)); now rewrite segments_strip.
Qed.

(** What [ensure_dir] raises, and what it leaves last in the log. *)
Lemma ensure_dir_raises (cp : string) (w w' : world S) (e : exn) :
  ensure_dir cp w = (Raise e, w') ->
  (e = error_perm
   /\ exists l, log w' = (l ++ [Print (Cannot_create_or_access cp)])%list)
  \/ (e = error_other /\ exists l c, log w' = (l ++ [Sent c Fail])%list).
Proof.
  unfold ensure_dir, try_perm, bind, send, print, ret, raise.
  destruct (ftp_step (srv w) (MKD cp)) as [[l| |] s1]; cbn; try discriminate.
  - destruct (ftp_step s1 (CWD cp)) as [[l| |] s2]; cbn.
    + destruct (ftp_step s2 (CWD "/")) as [[l'| |] s3]; cbn; try discriminate;
        intros E; injection E as <- <-; cbn.
      * left; split; [reflexivity | now eexists].
      * right; split; [reflexivity | now eexists _, _].
    + intros E; injection E as <- <-; cbn.
      left; split; [reflexivity | now eexists].
    + intros E; injection E as <- <-; cbn.
      right; split; [reflexivity | now eexists _, _].
  - intros E; injection E as <- <-; cbn.
    right; split; [reflexivity | now eexists _, _].
Qed.

Lemma ensure_loop_raises (parts pre : list string) :
  Forall (fun x => PyStr.nonempty x = true) pre ->
  Forall (fun x => PyStr.nonempty x = true) parts ->
  forall (w w' : world S) (e : exn),
    ensure_loop parts (PyStr.join pre) w = (Raise e, w') ->
    (e = error_perm
     /\ exists l cp, In cp (running pre parts)
          /\ log w' = (l ++ [Print (Cannot_create_or_access cp)])%list)
    \/ (e = error_other /\ exists l c, log w' = (l ++ [Sent c Fail])%list).
Proof.
  intros Hpre Hparts; revert pre Hpre.
  induction Hparts as [|part rest Hp _ IH]; intros pre Hpre w w' e;
    cbn [ensure_loop]; [discriminate|].
  rewrite Hp, running_path_step by assumption.
  rewrite running_cons; unfold bind.
  destruct (ensure_dir (PyStr.join (pre ++ [part])) w) as [[[]|e1] w1] eqn:E1.
  - intros E.
    assert (Hpre' : Forall (fun x => PyStr.nonempty x = true) (pre ++ [part]))
      by (apply Forall_app; split; [assumption | now constructor]).
    destruct (IH _ Hpre' _ _ _ E) as [[-> [l [cp [Hin Hl]]]] | Hother];
      [left | now right].
    split; [reflexivity | exists l, cp; split; [now right | assumption]].
  - intros E; injection E as <- <-.
    destruct (ensure_dir_raises _ _ _ _ E1) as [[-> [l Hl]] | Hother];
      [left | now right].
    split; [reflexivity | exists l, (PyStr.join (pre ++ [part])); split; [now left | assumption]].
Qed.

End EnsurerMore.

Lemma segments_nonempty (path : string) :
  Forall (fun x => PyStr.nonempty x = true) (segments path).
Proof.
  unfold segments; apply Forall_forall; intros x Hx.
  now apply filter_In in Hx.
Qed.

(** X8. A path without a segment (the empty string, or slashes only)
    makes [create_remote_directory] return at once: nothing is sent,
    nothing is printed, the session is as it was. *)
Theorem create_remote_directory_no_segment {S : Type} `{FtpServer S}
    (path : string) (w : world S) :
  segments path = [] -> create_remote_directory path w = (Ret tt, w).
Proof.
  intros Hs; now rewrite create_remote_directory_segments, Hs.
Qed.

Lemma create_remote_directory_no_segment_witness :
  create_remote_directory "//" home_session = (Ret tt, home_session).
Proof.
  apply (create_remote_directory_no_segment "//" home_session); reflexivity.
Defined.

(** X9. [create_remote_directory] looks at the non-empty segments of the
    path only: two paths with the same segments make the same run.  So a
    leading slash is ignored, and an absolute path is ensured as the
    relative path of the same segments, from wherever the session is. *)
Theorem create_remote_directory_ignores_slashes {S : Type} `{FtpServer S}
    (path path' : string) (w : world S) :
  segments path = segments path' ->
  create_remote_directory path w = create_remote_directory path' w.
Proof.
  intros Hs; now rewrite !create_remote_directory_segments, Hs.
Qed.

Lemma create_remote_directory_ignores_slashes_witness :
  create_remote_directory "/a/b" home_session
  = create_remote_directory "a//b/" home_session.
Proof.
  apply (create_remote_directory_ignores_slashes "/a/b" "a//b/" home_session).
  reflexivity.
Defined.

(** X10. [create_remote_directory] fails in two ways only.  It raises the
    permission error after printing, as the last line, that one of the
    accumulated prefixes of the path can be neither created nor accessed;
    or it lets through the other failure of the command it has just
    sent. *)
Theorem create_remote_directory_failures {S : Type} `{FtpServer S}
    (path : string) (w w' : world S) (e : exn) :
  create_remote_directory path w = (Raise e, w') ->
  (e = error_perm
   /\ exists l cp, In cp (prefixes path)
        /\ log w' = (l ++ [Print (Cannot_create_or_access cp)])%list)
  \/ (e = error_other /\ exists l c, log w' = (l ++ [Sent c Fail])%list).
Proof.
  rewrite create_remote_directory_segments.
  exact (ensure_loop_raises (segments path) [] (Forall_nil _)
           (segments_nonempty path) w w' e).
Qed.

Lemma create_remote_directory_failures_witness :
  (error_perm = error_perm
   /\ exists l cp, In cp (prefixes "a/b")
        /\ log (snd (create_remote_directory "a/b"
                       (mkWorld (MemFtp.mkState ["u"] [["u"]; ["u"; "a"]] [] []
                                   ("bob", "pw")) [])))
           = (l ++ [Print (Cannot_create_or_access cp)])%list)
  \/ (error_perm = error_other
      /\ exists l c,
           log (snd (create_remote_directory "a/b"
                       (mkWorld (MemFtp.mkState ["u"] [["u"]; ["u"; "a"]] [] []
                                   ("bob", "pw")) [])))
           = (l ++ [Sent c Fail])%list).
Proof.
  apply (create_remote_directory_failures "a/b"
           (mkWorld (MemFtp.mkState ["u"] [["u"]; ["u"; "a"]] [] []
                       ("bob", "pw")) [])).
  vm_compute; reflexivity.
Defined.

(* ===================================================================== *)
(** ** Further properties: the remote cleaner *)
(* ===================================================================== *)

Section CleanerMore.

Context {S : Type} `{FtpServer S}.

Lemma remove_items_spares_dots (recurse : string -> M S unit) (items : list string) :
  (forall item, is_dot item = false -> confined spares_dots (recurse item)) ->
  confined spares_dots (remove_items recurse items).
Proof.
  intros Hrec; unfold remove_items; apply confined_for_each; intros item _.
  destruct (is_dot item) eqn:Hd; [apply confined_ret|].
  apply confined_try_perm; [|now apply Hrec].
  apply confined_bind; [|intros; apply confined_ret].
  apply confined_send; intros r; exact Hd.
Qed.

Lemma remove_directory_spares_dots (depth : nat) :
  forall path, is_dot path = false ->
    confined spares_dots (remove_directory (S := S) depth path).
Proof.
  induction depth as [|d IH]; intros path Hp; cbn [remove_directory].
  - apply confined_raise.
  - apply confined_try_all; [|apply confined_ret].
    apply confined_bind; [apply confined_send; intros; exact I | intros _].
    apply confined_bind; [apply confined_send; intros; exact I | intros items].
    apply confined_bind; [now apply remove_items_spares_dots | intros _].
    apply confined_bind; [apply confined_send; intros; exact I | intros _].
    apply confined_bind; [apply confined_send; intros; exact Hp | intros _].
    apply confined_ret.
Qed.

Lemma clean_items_spares_dots (depth : nat) (items : list string) :
  confined spares_dots (clean_items (S := S) depth items).
Proof.
  unfold clean_items; apply confined_for_each; intros item _.
  destruct (is_dot item) eqn:Hd; [apply confined_ret|].
  apply confined_try_perm.
  - apply confined_bind; [apply confined_send; intros; exact Hd | intros _].
    apply confined_print; exact I.
  - apply confined_try_all; [|apply confined_print; exact I].
    apply confined_bind; [now apply remove_directory_spares_dots | intros _].
    apply confined_print; exact I.
Qed.

Lemma clean_remote_directory_spares_dots (depth : nat) (remote_path : string) :
  confined spares_dots (clean_remote_directory (S := S) depth remote_path).
Proof.
  unfold clean_remote_directory.
  apply confined_try_perm; [|apply confined_print; exact I].
  apply confined_bind; [apply confined_send; intros; exact I | intros _].
  apply confined_bind; [apply confined_send; intros; exact I | intros items].
  apply confined_bind; [apply clean_items_spares_dots | intros _].
  apply confined_bind; [apply confined_send; intros; exact I | intros _].
  apply confined_ret.
Qed.

Lemma raises_from_send_ret {A : Type} (a : A) : raises_from_send (ret (S := S) a).
Proof. intros w w' e E; discriminate E. Qed.

Lemma raises_from_send_print (m : msg) : raises_from_send (print (S := S) m).
Proof. intros w w' e E; discriminate E. Qed.

Lemma raises_from_send_send (c : cmd) : raises_from_send (send c).
Proof.
  intros w w' e; unfold send.
  destruct (ftp_step (srv w) c) as [[l| |] s1]; cbn; try discriminate;
    intros E; injection E as <- <-; cbn; [left | right];
    (split; [reflexivity | now eexists _, _]).
Qed.

Lemma raises_from_send_bind {A B : Type} (m : M S A) (k : A -> M S B) :
  raises_from_send m -> (forall a, raises_from_send (k a)) ->
  raises_from_send (bind m k).
Proof.
  intros Hm Hk w w' e; unfold bind.
  destruct (m w) as [[a|e1] w1] eqn:E1.
  - apply Hk.
  - intros E; injection E as <- <-; exact (Hm _ _ _ E1).
Qed.

Lemma raises_from_send_try_perm {A : Type} (m h : M S A) :
  raises_from_send m -> raises_from_send h -> raises_from_send (try_perm m h).
Proof.
  intros Hm Hh w w' e; unfold try_perm.
  destruct (m w) as [[a|[| |]] w1] eqn:E1; try discriminate.
  - apply Hh.
  - intros E; injection E as <- <-; exact (Hm _ _ _ E1).
  - intros E; injection E as <- <-; exact (Hm _ _ _ E1).
Qed.

Lemma raises_from_send_try_all {A : Type} (m h : M S A) :
  raises_from_send h -> raises_from_send (try_all m h).
Proof.
  intros Hh w w' e; unfold try_all.
  destruct (m w) as [[a|e1] w1]; [discriminate | apply Hh].
Qed.

Lemma raises_from_send_for_each {A : Type} (l : list A) (body : A -> M S unit) :
  (forall x, raises_from_send (body x)) -> raises_from_send (for_each l body).
Proof.
  intros Hb; induction l as [|x l IH]; cbn [for_each].
  - apply raises_from_send_ret.
  - apply raises_from_send_bind; [apply Hb | intros _; exact IH].
Qed.

Lemma clean_items_raises (depth : nat) (items : list string) :
  raises_from_send (clean_items (S := S) depth items).
Proof.
  unfold clean_items; apply raises_from_send_for_each; intros item.
  destruct (is_dot item); [apply raises_from_send_ret|].
  apply raises_from_send_try_perm.
  - apply raises_from_send_bind;
      [apply raises_from_send_send | intros; apply raises_from_send_print].
  - apply raises_from_send_try_all, raises_from_send_print.
Qed.

End CleanerMore.

Lemma send_run {S : Type} `{FtpServer S} (c : cmd) (w : world S) :
  send c w
  = (match fst (ftp_step (srv w) c) with
     | Ok lines => Ret lines
     | Perm => Raise error_perm
     | Fail => Raise error_other
     end,
     mkWorld (snd (ftp_step (srv w) c))
       (log w ++ [Sent c (fst (ftp_step (srv w) c))])).
Proof. unfold send; now destruct (ftp_step (srv w) c). Qed.

(** X11. When [remove_directory] cannot obtain the listing of the
    directory, it returns without a word and without going back: if the
    directory cannot be entered, the refused [CWD] is all it sends; if it
    is entered and [NLST] then fails, the session is left inside it, with
    no [CWD ..] and no [RMD]. *)
Theorem remove_directory_without_listing {S : Type} `{FtpServer S}
    (d : nat) (path : string) (w : world S) :
  let entered := snd (send (CWD path) w) in
  let listed := snd (send NLST entered) in
  is_ok (fst (ftp_step (srv w) (CWD path)))
  && is_ok (fst (ftp_step (srv entered) NLST)) = false ->
  remove_directory (Datatypes.S d) path w
  = (Ret tt,
     if is_ok (fst (ftp_step (srv w) (CWD path))) then listed else entered).
Proof.
  cbn zeta; cbn [remove_directory]; unfold try_all, bind.
  rewrite !send_run; cbn [srv log fst snd].
  destruct (ftp_step (srv w) (CWD path)) as [[l| |] s1];
    cbn [is_ok andb fst snd srv log]; try (intros _; reflexivity).
  destruct (ftp_step s1 NLST) as [[items| |] s2];
    cbn [is_ok andb fst snd srv log];
    [discriminate | intros _; reflexivity | intros _; reflexivity].
Qed.

Lemma remove_directory_without_listing_witness :
  let w := mkWorld (1, srv stale_session) [] in
  remove_directory 3 "bobd77.sg-host.com" w
  = (Ret tt,
     if is_ok (fst (ftp_step (srv w) (CWD "bobd77.sg-host.com")))
     then snd (send NLST (snd (send (CWD "bobd77.sg-host.com") w)))
     else snd (send (CWD "bobd77.sg-host.com") w)).
Proof.
  apply (remove_directory_without_listing 2 "bobd77.sg-host.com"
           (mkWorld (1, srv stale_session) [])).
  vm_compute; reflexivity.
Defined.

(** X12. The clean pass never touches [.] or [..]: whatever the listings
    of the server hold and at any depth, no [DELE] and no [RMD] is sent
    for them, and the pass sends nothing but [CWD], [NLST], [DELE] and
    [RMD]. *)
Theorem clean_remote_directory_spares_dot_entries {S : Type} `{FtpServer S}
    (depth : nat) (remote_path : string) :
  confined spares_dots (clean_remote_directory depth remote_path).
Proof. apply clean_remote_directory_spares_dots. Qed.

(** X13. A permission error never leaves [clean_remote_directory], and
    neither does the error of an exhausted recursion: what it raises is
    the failure, other than a refusal, of the command it has just sent. *)
Theorem clean_remote_directory_raises_failures_only {S : Type} `{FtpServer S}
    (depth : nat) (remote_path : string) (w w' : world S) (e : exn) :
  clean_remote_directory depth remote_path w = (Raise e, w') ->
  e = error_other /\ exists l c, log w' = (l ++ [Sent c Fail])%list.
Proof.
  unfold clean_remote_directory, try_perm.
  match goal with |- context [match ?m w with _ => _ end] =>
    assert (Hm : raises_from_send m);
    [| destruct (m w) as [[a|e1] w1] eqn:E1 ]
  end.
  - apply raises_from_send_bind; [apply raises_from_send_send | intros _].
    apply raises_from_send_bind; [apply raises_from_send_send | intros items].
    apply raises_from_send_bind; [apply clean_items_raises | intros _].
    apply raises_from_send_bind; [apply raises_from_send_send | intros _].
    apply raises_from_send_ret.
  - discriminate.
  - destruct (Hm _ _ _ E1) as [[-> _] | [-> Hl]].
    + discriminate.
    + intros E; injection E as <- <-; now split.
Qed.

Lemma clean_remote_directory_raises_failures_only_witness :
  error_other = error_other
  /\ exists l c,
       log (snd (clean_remote_directory 5 (remote_app_path deployer)
                   (mkWorld (3, srv stale_session) [])))
       = (l ++ [Sent c Fail])%list.
Proof.
  apply (clean_remote_directory_raises_failures_only 5
           (remote_app_path deployer) (mkWorld (3, srv stale_session) [])).
  vm_compute; reflexivity.
Defined.

Lemma printed_nil_no_report (delta : list event) :
  printed delta = [] -> Forall not_a_failure_report delta.
Proof.
  induction delta as [|[c r|m] delta IH]; cbn; intros Hp.
  - constructor.
  - constructor; [exact I | now apply IH].
  - discriminate.
Qed.

Section CleanerLines.

Context {S : Type} `{FtpServer S}.

(** What one entry of the listing costs the clean pass, when the pass
    goes on: some commands and exactly one line, for an entry other than
    [.] and [..]. *)
Lemma clean_entry_line (d : nat) (item : string) (w w' : world S) :
  (if is_dot item then ret tt
   else try_perm (send (DELE item);; print (Deleted_file item))
          (try_all (remove_directory (Datatypes.S d) item;;
                    print (Deleted_directory item))
                   (print (Could_not_delete item)))) w = (Ret tt, w') ->
  exists delta,
    log w' = (log w ++ delta)%list
    /\ Forall2 deletion_line (if is_dot item then [] else [item]) (printed delta).
Proof.
  destruct (is_dot item).
  - unfold ret; intros E; injection E as <-.
    exists []; rewrite app_nil_r; split; [reflexivity | constructor].
  - unfold try_perm, bind at 1; rewrite send_run; cbn [fst snd].
    destruct (ftp_step (srv w) (DELE item)) as [[l| |] s1]; cbn [fst snd];
      try discriminate.
    + unfold print; intros E; injection E as <-; cbn [srv log].
      eexists; rewrite <- app_assoc; split; [reflexivity|].
      cbn; constructor; [now left | constructor].
    + unfold try_all, bind.
      match goal with |- context [remove_directory _ item ?w1] =>
        pose proof (remove_directory_returns d item w1) as Hret;
        destruct (remove_directory_silent (Datatypes.S d) item w1) as [d2 [Hd2 Hp2]];
        destruct (remove_directory (Datatypes.S d) item w1) as [[[]|e] w2]
      end; cbn [fst snd log] in *; [|discriminate].
      unfold print; intros E; injection E as <-; cbn [srv log].
      eexists; rewrite Hd2, <- !app_assoc; split; [reflexivity|].
      rewrite !printed_app, Hp2; cbn.
      constructor; [now right | constructor].
Qed.

Lemma clean_items_lines (d : nat) (items : list string) :
  forall (w w' : world S),
    clean_items (Datatypes.S d) items w = (Ret tt, w') ->
    exists delta,
      log w' = (log w ++ delta)%list
      /\ Forall2 deletion_line
           (filter (fun item => negb (is_dot item)) items) (printed delta).
Proof.
  unfold clean_items; induction items as [|item rest IH]; intros w w';
    cbn [for_each filter].
  - unfold ret; intros E; injection E as <-.
    exists []; rewrite app_nil_r; split; [reflexivity | constructor].
  - unfold bind at 1.
    match goal with |- context [match ?body w with _ => _ end] =>
      destruct (body w) as [[[]|e] w1] eqn:E1 end; [|discriminate].
    intros E2.
    destruct (clean_entry_line d item w w1 E1) as [d1 [Hd1 Hl1]].
    destruct (IH _ _ E2) as [d2 [Hd2 Hl2]].
    exists (d1 ++ d2)%list; rewrite Hd2, Hd1, <- app_assoc; split; [reflexivity|].
    rewrite printed_app.
    destruct (is_dot item); cbn [negb].
    + inversion Hl1; subst; cbn; assumption.
    + now apply (Forall2_app (l1 := [item])).
Qed.

End CleanerLines.

(** X14. While the clean pass goes on, every entry of a listing other than
    [.] and [..] gets exactly one line, in order, and that line says it
    was deleted, as a file or as a directory: the line that reports an
    entry as not deleted is never among them, whatever the server
    refused. *)
Theorem clean_items_report_deletions_only {S : Type} `{FtpServer S}
    (d : nat) (items : list string) (w w' : world S) :
  clean_items (Datatypes.S d) items w = (Ret tt, w') ->
  exists delta,
    log w' = (log w ++ delta)%list
    /\ Forall2 deletion_line
         (filter (fun item => negb (is_dot item)) items) (printed delta).
Proof. apply clean_items_lines. Qed.

Lemma clean_items_report_deletions_only_witness :
  exists delta,
    log (snd (clean_items 3 ["."; ".."; "x"; "y"] cleaning_session))
    = (log cleaning_session ++ delta)%list
    /\ Forall2 deletion_line
         (filter (fun item => negb (is_dot item)) ["."; ".."; "x"; "y"])
         (printed delta).
Proof.
  apply (clean_items_report_deletions_only 2 ["."; ".."; "x"; "y"]
           cleaning_session).
  vm_compute; reflexivity.
Defined.

Section CleanerQuiet.

Context {S : Type} `{FtpServer S}.

Lemma confined_try_all_returning {A : Type} (allowed : event -> Prop)
    (m h : M S A) :
  (forall w, exists a, fst (m w) = Ret a) ->
  confined allowed m -> confined allowed (try_all m h).
Proof.
  intros Hret Hm w; unfold try_all.
  destruct (Hm w) as [d1 [Hd1 Ha1]]; destruct (Hret w) as [a Ha].
  destruct (m w) as [[a'|e] w1]; cbn [fst snd] in *; [now exists d1 | discriminate].
Qed.

Lemma clean_remote_directory_no_report (d : nat) (remote_path : string) :
  confined not_a_failure_report
    (clean_remote_directory (S := S) (Datatypes.S d) remote_path).
Proof.
  assert (Hsend : forall c, confined not_a_failure_report (send c))
    by (intros c; apply confined_send; intros; exact I).
  unfold clean_remote_directory.
  apply confined_try_perm; [|apply confined_print; exact I].
  apply confined_bind; [apply Hsend | intros _].
  apply confined_bind; [apply Hsend | intros items].
  apply confined_bind; [|intros _; apply confined_bind;
                         [apply Hsend | intros; apply confined_ret]].
  unfold clean_items; apply confined_for_each; intros item _.
  destruct (is_dot item); [apply confined_ret|].
  apply confined_try_perm.
  - apply confined_bind; [apply Hsend | intros; apply confined_print; exact I].
  - apply confined_try_all_returning.
    + intros w; unfold bind.
      pose proof (remove_directory_returns d item w) as Hr.
      destruct (remove_directory (Datatypes.S d) item w) as [[[]|e] w1];
        cbn [fst] in Hr; [now exists tt | discriminate].
    + apply confined_bind; [|intros; apply confined_print; exact I].
      intros w; destruct (remove_directory_silent (Datatypes.S d) item w)
        as [delta [Hd Hp]].
      exists delta; split; [assumption | now apply printed_nil_no_report].
Qed.

End CleanerQuiet.

(** X15. The clean pass never prints that an entry could not be deleted.
    [remove_directory] absorbs its own failures, so the handler that
    prints that line is never entered: an entry that is still there after
    the pass was reported, if at all, as deleted. *)
Theorem clean_remote_directory_never_reports_failure {S : Type} `{FtpServer S}
    (d : nat) (remote_path : string) :
  confined not_a_failure_report
    (clean_remote_directory (Datatypes.S d) remote_path).
Proof. apply clean_remote_directory_no_report. Qed.

(* ===================================================================== *)
(** ** Further properties: the orchestrator *)
(* ===================================================================== *)

Section DeployMore.

Context {S : Type} `{FtpServer S}.

Lemma ensure_loop_confined (parts : list string) :
  forall cur, confined (only_commands is_mkd_or_cwd) (ensure_loop (S := S) parts cur).
Proof.
  induction parts as [|part rest IH]; intros cur; cbn [ensure_loop].
  - apply confined_ret.
  - destruct (PyStr.nonempty part); [|apply IH].
    apply confined_bind; [|intros; apply IH].
    unfold ensure_dir.
    repeat first [apply confined_try_perm | apply confined_bind | intros _
                 | apply confined_send; intros; reflexivity
                 | apply confined_print; exact I
                 | apply confined_ret | apply confined_raise].
Qed.

Lemma upload_items_loop_confined (self : AppDeployer) (root : node)
    (items : list string) :
  forall total,
    confined (only_commands is_mkd_or_stor)
      (upload_items_loop (S := S) self root items total).
Proof.
  induction items as [|item_name rest IH]; intros total; cbn [upload_items_loop].
  - apply confined_ret.
  - destruct (local_item_of root item_name) as [[name|name kids|name]|].
    + apply confined_bind; [apply upload_file_confined | intros; apply IH].
    + apply confined_bind; [now apply try_mkd_confined | intros _].
      apply confined_bind; [apply upload_loop_confined | intros; apply IH].
    + apply IH.
    + apply confined_bind; [apply confined_print; exact I | intros; apply IH].
Qed.

Lemma before_upload_confined (class : cmd -> bool) (self : AppDeployer)
    (clean : bool) (depth : nat) :
  (forall c, is_mkd_or_cwd c = true -> class c = true) ->
  (forall u p, class (LOGIN u p) = true) ->
  (clean = true ->
   confined (only_commands class)
     (clean_remote_directory (S := S) depth (remote_app_path self))) ->
  confined (only_commands class) (before_upload self clean depth).
Proof.
  intros Hmc Hlogin Hclean; unfold before_upload.
  apply confined_bind; [apply confined_print; exact I | intros _].
  apply confined_bind; [apply confined_send; intros; apply Hlogin | intros _].
  apply confined_bind; [apply confined_print; exact I | intros _].
  apply confined_bind; [apply confined_print; exact I | intros _].
  apply confined_bind; [|intros _].
  - apply (confined_weaken (only_commands is_mkd_or_cwd)); [|apply ensure_loop_confined].
    intros [c r|m]; cbn; [apply Hmc | trivial].
  - destruct clean; [|apply confined_ret].
    apply confined_bind; [apply confined_print; exact I | intros _; now apply Hclean].
Qed.

Lemma bind_assoc_run {A B C : Type} (m : M S A) (k : A -> M S B)
    (h : B -> M S C) (w : world S) :
  bind (bind m k) h w = bind m (fun a => bind (k a) h) w.
Proof. unfold bind; now destruct (m w) as [[a|e] w1]. Qed.

(** The body of [deploy] is what comes before the uploads, then the
    uploads and the summary. *)
Lemma deploy_session_split (self : AppDeployer) (root : node) (clean : bool)
    (depth : nat) (w : world S) :
  deploy_session self root clean depth w
  = (before_upload self clean depth ;;
     total_uploaded <- upload_items_loop self root (upload_items self) 0 ;;
     print (Deployment_complete total_uploaded) ;;
     ret true) w.
Proof.
  unfold deploy_session, before_upload.
  rewrite bind_assoc_run, !print_then.
  rewrite bind_assoc_run, !send_then; cbn [srv log].
  destruct (ftp_step (srv w) (LOGIN (username self) (password self)))
    as [[l| |] s1]; try reflexivity.
  rewrite bind_assoc_run, !print_then.
  rewrite bind_assoc_run, !print_then.
  rewrite bind_assoc_run; reflexivity.
Qed.

End DeployMore.

Lemma stor_free (l : list event) :
  Forall (only_commands is_not_stor) l -> stor_replies l = [].
Proof.
  induction 1 as [|[c r|m] l Hx _ IH]; [reflexivity | | exact IH].
  destruct c; cbn in Hx |- *; try discriminate; exact IH.
Qed.

Lemma spares_dots_not_stor (e : event) :
  spares_dots e -> only_commands is_not_stor e.
Proof. destruct e as [[]|]; cbn; trivial; contradiction. Qed.

Section DeployOutput.

Context {S : Type} `{FtpServer S}.

Lemma before_upload_no_stor (self : AppDeployer) (clean : bool) (depth : nat) :
  confined (only_commands is_not_stor) (before_upload (S := S) self clean depth).
Proof.
  apply before_upload_confined.
  - intros [] Hc; cbn in *; congruence.
  - reflexivity.
  - intros _; apply (confined_weaken spares_dots); [exact spares_dots_not_stor|].
    apply clean_remote_directory_spares_dots.
Qed.

Lemma after_upload_confined (self : AppDeployer) (root : node) :
  confined (only_commands is_mkd_or_stor)
    (total_uploaded <- upload_items_loop (S := S) self root (upload_items self) 0 ;;
     print (Deployment_complete total_uploaded) ;;
     ret true).
Proof.
  apply confined_bind; [apply upload_items_loop_confined | intros total].
  apply confined_bind; [apply confined_print; exact I | intros; apply confined_ret].
Qed.

(** What [deploy] leaves as output, from what its body adds to the log. *)
Lemma deploy_output (allowed : event -> Prop) (self : AppDeployer) (root : node)
    (connect : string -> option S) (clean : bool) (depth : nat) :
  (forall m, allowed (Print m)) ->
  confined allowed (deploy_session self root clean depth) ->
  Forall allowed (output (deploy self root connect clean depth)).
Proof.
  intros Hprint Hconf; unfold deploy.
  destruct (negb (check_credentials self)); [repeat constructor; apply Hprint|].
  destruct (connect (host self)) as [s0|]; [|repeat constructor; apply Hprint].
  match goal with |- context [deploy_session _ _ _ _ ?w0] =>
    destruct (Hconf w0) as [delta [Hd Ha]];
    destruct (deploy_session self root clean depth w0) as [[b|e] w1]
  end; cbn [snd log] in Hd.
  - cbn [output]; rewrite Hd; apply Forall_app; split;
      [repeat constructor; apply Hprint | assumption].
  - assert (Hall : Forall allowed (log w1)).
    { rewrite Hd; apply Forall_app; split;
        [repeat constructor; apply Hprint | assumption]. }
    destruct e; cbn [output]; apply Forall_app; split; try assumption;
      repeat constructor; apply Hprint.
Qed.

Lemma upload_items_loop_count (self : AppDeployer) (root : node)
    (items : list string) :
  forall (total : nat) (w w' : world S) (n : nat),
    upload_items_loop self root items total w = (Ret n, w') ->
    exists delta,
      log w' = (log w ++ delta)%list
      /\ n = total + successes (stor_replies delta).
Proof.
  induction items as [|item_name rest IH]; intros total w w' n;
    cbn [upload_items_loop].
  - unfold ret; intros E; injection E as <- <-.
    exists []; rewrite app_nil_r; cbn; split; [reflexivity | lia].
  - destruct (local_item_of root item_name) as [[name|name kids|name]|].
    + unfold bind at 1; rewrite upload_file_run; intros E.
      destruct (IH _ _ _ _ E) as [d [Hd Hn]]; cbn [log] in Hd.
      eexists; rewrite Hd, <- app_assoc; split; [reflexivity|].
      rewrite stor_replies_app, successes_app, Hn.
      unfold successes at 2; cbn.
      destruct (is_ok (fst (ftp_step (srv w) (STOR _)))); cbn; lia.
    + unfold bind at 1.
      destruct (try_mkd_log (remote_app_path self ++ "/" ++ item_name) w)
        as [tail [Hm Ht]].
      destruct (try_mkd (remote_app_path self ++ "/" ++ item_name) w)
        as [[[]|e] w1]; [|discriminate]; cbn [snd] in Hm.
      unfold bind at 1, upload_directory.
      destruct (upload_loop self (path_div (local_app_dir self) item_name) kids
                  (remote_app_path self ++ "/" ++ item_name) 0 w1)
        as [[k|e] w2] eqn:E2; [|discriminate].
      intros E.
      destruct (upload_loop_count _ _ _ _ _ _ _ _ E2) as [d2 [Hd2 [_ [Hk _]]]].
      destruct (IH _ _ _ _ E) as [d3 [Hd3 Hn]].
      eexists; rewrite Hd3, Hd2, Hm, <- !app_assoc; split; [reflexivity|].
      rewrite !stor_replies_app, !successes_app, Hn, Hk.
      assert (Hq : successes (stor_replies
                     (Sent (MKD (remote_app_path self ++ "/" ++ item_name))
                        (fst (ftp_step (srv w)
                                (MKD (remote_app_path self ++ "/" ++ item_name))))
                      :: tail)) = 0)
        by (destruct Ht as [-> | ->]; reflexivity).
      rewrite Hq; lia.
    + apply IH.
    + unfold bind, print at 1; intros E.
      destruct (IH _ _ _ _ E) as [d [Hd Hn]]; cbn [log] in Hd.
      exists (Print (Skipped_missing_item item_name) :: d).
      rewrite Hd, <- app_assoc; split; [reflexivity | exact Hn].
Qed.

End DeployOutput.

(** X16. Without [--clean], [deploy] removes nothing and lists nothing:
    no [DELE], no [RMD] and no [NLST] is ever sent, whatever the server
    answers and whatever the local tree holds. *)
Theorem deploy_without_clean_removes_nothing {S : Type} `{FtpServer S}
    (self : AppDeployer) (root : node) (connect : string -> option S)
    (depth : nat) :
  Forall (only_commands is_not_listing_or_removal)
    (output (deploy self root connect false depth)).
Proof.
  apply deploy_output; [intros; exact I|].
  intros w; rewrite deploy_session_split; revert w.
  apply confined_bind.
  - apply before_upload_confined; [| reflexivity | discriminate].
    intros [] Hc; cbn in *; congruence.
  - intros _.
    apply (confined_weaken (only_commands is_mkd_or_stor));
      [|apply after_upload_confined].
    intros [[]|]; cbn; congruence.
Qed.

(** X17. In the output of [deploy] everything that lists or removes comes
    before every transfer: the output splits into a first part without any
    [STOR] and a second part in which only [MKD] and [STOR] are sent.  The
    clean pass never deletes what the same run has uploaded. *)
Theorem deploy_cleans_before_uploading {S : Type} `{FtpServer S}
    (self : AppDeployer) (root : node) (connect : string -> option S)
    (clean : bool) (depth : nat) :
  exists before after,
    output (deploy self root connect clean depth) = (before ++ after)%list
    /\ Forall (only_commands is_not_stor) before
    /\ Forall (only_commands is_mkd_or_stor) after.
Proof.
  unfold deploy.
  destruct (negb (check_credentials self)).
  { exists [Print Credentials_not_configured], []; repeat split; repeat constructor. }
  destruct (connect (host self)) as [s0|].
  2:{ eexists _, []; rewrite app_nil_r; repeat split; repeat constructor. }
  rewrite deploy_session_split; unfold bind at 1.
  match goal with |- context [before_upload _ _ _ ?w0] =>
    destruct (before_upload_no_stor self clean depth w0) as [dA [HdA HA]];
    destruct (before_upload self clean depth w0) as [[[]|e] w1]
  end; cbn [snd log] in HdA.
  - destruct (after_upload_confined self root w1) as [dB [HdB HB]].
    match goal with |- context [match ?run with _ => _ end] =>
      destruct run as [[b|e] w2] end; cbn [snd] in HdB.
    + exists (log w1), dB; cbn [output]; rewrite HdB; split; [reflexivity|].
      split; [|assumption].
      rewrite HdA; apply Forall_app; split; [repeat constructor | assumption].
    + exists (log w1), (dB ++ [Print (match e with
                                      | RecursionError => Deployment_error
                                      | _ => Ftp_error
                                      end)])%list.
      split; [destruct e; cbn [output]; rewrite HdB, <- app_assoc; reflexivity|].
      split; [rewrite HdA; apply Forall_app; split; [repeat constructor | assumption]|].
      apply Forall_app; split; [assumption | repeat constructor].
  - exists (log w1), [Print (match e with
                            | RecursionError => Deployment_error
                            | _ => Ftp_error
                            end)].
    split; [destruct e; reflexivity|].
    split; [rewrite HdA; apply Forall_app; split; [repeat constructor | assumption]|].
    repeat constructor.
Qed.

(** X18. The total that [deploy] prints at the end of a successful run is
    the number of transfers the server completed during the run. *)
Theorem deploy_reports_completed_transfers {S : Type} `{FtpServer S}
    (self : AppDeployer) (root : node) (connect : string -> option S)
    (clean : bool) (depth : nat) :
  result (deploy self root connect clean depth) = true ->
  exists l,
    output (deploy self root connect clean depth)
    = (l ++ [Print (Deployment_complete (successes (stor_replies l)))])%list.
Proof.
  unfold deploy.
  destruct (negb (check_credentials self)); [discriminate|].
  destruct (connect (host self)) as [s0|]; [|discriminate].
  rewrite deploy_session_split.
  match goal with |- context [bind (before_upload _ _ _) _ ?w0] =>
    destruct (before_upload_no_stor self clean depth w0) as [dA [HdA HA]];
    destruct (before_upload self clean depth w0) as [[[]|e] w1] eqn:E1
  end; cbn [snd log] in HdA.
  2:{ rewrite (bind_raises _ _ _ _ _ E1); destruct e; discriminate. }
  rewrite (bind_returns _ _ _ _ _ E1).
  destruct (upload_items_loop self root (upload_items self) 0 w1)
    as [[n|e] w2] eqn:E2.
  2:{ rewrite (bind_raises _ _ _ _ _ E2); destruct e; discriminate. }
  rewrite (bind_returns _ _ _ _ _ E2), print_then.
  destruct (upload_items_loop_count _ _ _ _ _ _ _ E2) as [dB [HdB Hn]].
  unfold ret; cbn [output log result]; intros _.
  assert (Hs : successes (stor_replies (log w2)) = n).
  { rewrite HdB, HdA, !stor_replies_app, (stor_free dA HA), Hn; reflexivity. }
  exists (log w2); now rewrite Hs.
Qed.

Lemma deploy_reports_completed_transfers_witness :
  exists l,
    output (deploy deployer site (reach blocked) true 5)
    = (l ++ [Print (Deployment_complete (successes (stor_replies l)))])%list.
Proof.
  apply (deploy_reports_completed_transfers deployer site (reach blocked) true 5).
  vm_compute; reflexivity.
Defined.

(** X19. When the login is not accepted, [deploy] stops there: it answers
    [False] and the [LOGIN] is the only command of the whole run. *)
Theorem deploy_stops_at_refused_login {S : Type} `{FtpServer S}
    (self : AppDeployer) (root : node) (connect : string -> option S)
    (clean : bool) (depth : nat) (s0 : S) :
  check_credentials self = true ->
  connect (host self) = Some s0 ->
  is_ok (fst (ftp_step s0 (LOGIN (username self) (password self)))) = false ->
  result (deploy self root connect clean depth) = false
  /\ commands (output (deploy self root connect clean depth))
     = [LOGIN (username self) (password self)]
  /\ final (deploy self root connect clean depth)
     = Some (snd (ftp_step s0 (LOGIN (username self) (password self)))).
Proof.
  intros Hc Hs0 Hlogin; unfold deploy, deploy_session.
  rewrite Hc, Hs0; cbn [negb].
  rewrite print_then, send_then; cbn [srv log].
  destruct (ftp_step s0 (LOGIN (username self) (password self)))
    as [[l| |] s1]; cbn in Hlogin |- *; [discriminate | | ]; now repeat split.
Qed.

Lemma deploy_stops_at_refused_login_witness :
  let self := mkDeployer "ftp.example.org" "bob" "wrong" "app" here
                ["index.html"] [] in
  result (deploy self site (reach blocked) true 5) = false
  /\ commands (output (deploy self site (reach blocked) true 5))
     = [LOGIN "bob" "wrong"]
  /\ final (deploy self site (reach blocked) true 5)
     = Some (snd (ftp_step blocked (LOGIN "bob" "wrong"))).
Proof.
  apply (deploy_stops_at_refused_login
           (mkDeployer "ftp.example.org" "bob" "wrong" "app" here
              ["index.html"] [])
           site (reach blocked) true 5 blocked); reflexivity.
Defined.

(** X20. When one of the three credentials is missing from the
    environment, or empty, [main] makes no connection and sends nothing:
    it prints that the credentials are not configured and the exit status
    is 1. *)
Theorem main_without_credentials {S : Type} `{FtpServer S}
    (environ : string -> option string) (here : Path) (root : node)
    (connect : string -> option S) (clean : bool) (depth : nat) :
  environ_get environ "SITEGROUND_HOST" = ""
  \/ environ_get environ "SITEGROUND_USERNAME" = ""
  \/ environ_get environ "SITEGROUND_PASSWORD" = "" ->
  main environ here root connect clean false depth
  = (1, mkRun false [Print Credentials_not_configured] None).
Proof.
  intros Hmissing; unfold main, deploy.
  assert (Hc : check_credentials (init environ here) = false).
  { unfold check_credentials, init; cbn [host username password].
    destruct Hmissing as [-> | [-> | ->]]; cbn;
      rewrite ?andb_false_r; reflexivity. }
  now rewrite Hc.
Qed.

Lemma main_without_credentials_witness :
  main (fun key => if String.eqb key "SITEGROUND_PASSWORD" then None
                   else Some "set")
    here site (reach blocked) true false 5
  = (1, mkRun false [Print Credentials_not_configured] None).
Proof.
  apply (main_without_credentials
           (fun key => if String.eqb key "SITEGROUND_PASSWORD" then None
                       else Some "set")
           here site (reach blocked) true 5).
  right; right; reflexivity.
Defined.

Lemma commands_prints {A : Type} (f : A -> msg) (l : list A) :
  commands (map (fun x => Print (f x)) l) = [].
Proof. induction l as [|x l IH]; [reflexivity | exact IH]. Qed.

Lemma commands_app (a b : list event) :
  commands (a ++ b) = (commands a ++ commands b)%list.
Proof. apply flat_map_app. Qed.

Lemma dry_run_items_quiet (deployer : AppDeployer) (root : node)
    (items : list string) :
  commands (dry_run_items deployer root items) = [].
Proof.
  induction items as [|item_name rest IH]; [reflexivity|].
  cbn [dry_run_items]; rewrite commands_app, IH, app_nil_r.
  destruct (local_item_of root item_name) as [[name|name kids|name]|];
    try reflexivity; cbn [commands flat_map app];
    exact (commands_prints
             (fun subitem => Dry_sub (path_str (relative_to subitem
                                                  (local_app_dir deployer)))) _).
Qed.

(** X21. With [--dry-run], [main] makes no connection and sends no
    command, with or without credentials and whatever [--clean] says; the
    exit status is 0. *)
Theorem main_dry_run_sends_nothing {S : Type} `{FtpServer S}
    (environ : string -> option string) (here : Path) (root : node)
    (connect : string -> option S) (clean : bool) (depth : nat) :
  fst (main environ here root connect clean true depth) = 0
  /\ commands (output (snd (main environ here root connect clean true depth))) = []
  /\ final (snd (main environ here root connect clean true depth)) = None.
Proof.
  unfold main; cbn [fst snd output final commands flat_map app].
  repeat split; apply dry_run_items_quiet.
Qed.






(* ===================================================================== *)
(** ** Further properties: the tile server *)
(* ===================================================================== *)

Lemma replace_from_skip (old new x t : string) :
  TileServer.replace_from old new (String.length x) (x ++ t)
  = TileServer.replace_from old new 0 t.
Proof.
  induction x as [|c x IH]; cbn [String.length append].
  - destruct t; reflexivity.
  - exact IH.
Qed.

Lemma startswith_append (a t : string) : PyStr.startswith (a ++ t) a = true.
Proof. apply startswith_spec; now exists t. Qed.

(** An occurrence at the start is replaced, and the search goes on after
    it. *)
Lemma replace_at_start (c : ascii) (o new t : string) :
  TileServer.replace (String c o ++ t) (String c o) new
  = new ++ TileServer.replace t (String c o) new.
Proof.
  unfold TileServer.replace.
  change (String c o ++ t) with (String c (o ++ t)).
  cbn [TileServer.replace_from].
  change (String c (o ++ t)) with (String c o ++ t).
  rewrite startswith_append.
  replace (String.length (String c o) - 1) with (String.length o)
    by (cbn [String.length]; lia).
  now rewrite replace_from_skip.
Qed.

(** A string without an occurrence is left as it is. *)
Lemma replace_without_occurrence (old new t : string) :
  PyStr.contains t old = false -> TileServer.replace t old new = t.
Proof.
  unfold TileServer.replace; induction t as [|c t IH];
    cbn [PyStr.contains TileServer.replace_from]; [reflexivity|].
  intros Hc; apply orb_false_iff in Hc as [Hs Hc].
  now rewrite Hs, IH.
Qed.

Lemma tile_path_of_request (t : string) :
  PyStr.contains t "/maps/tiles/" = false ->
  TileServer.replace ("/maps/tiles/" ++ t) "/maps/tiles/" "" = t.
Proof.
  intros Hc.
  rewrite (replace_at_start "/" "maps/tiles/" "" t).
  now rewrite replace_without_occurrence.
Qed.



(** X24. A tile name that begins with a slash leaves the tile directory:
    the request [/maps/tiles//x/y] is answered from the file [/x/y] of the
    machine, wherever the tile directory is. *)
Theorem tile_request_absolute_name
    (urlparse_path : string -> string) (d : TileServer.disk)
    (self_path t : string) :
  urlparse_path self_path = "/maps/tiles/" ++ t ->
  PyStr.contains t "/maps/tiles/" = false ->
  PyStr.startswith t "/" = true ->
  TileServer.do_GET urlparse_path d self_path = TileServer.tile_response d t t.
Proof.
  intros Hu Hc Hs; unfold TileServer.do_GET, TileServer.serve_tile.
  rewrite Hu, startswith_append, (tile_path_of_request t Hc).
  unfold TileServer.os_path_join; now rewrite Hs.
Qed.

Lemma tile_request_absolute_name_witness :
  TileServer.do_GET (fun p => p) (one_file "/etc/passwd" "root")
    "/maps/tiles//etc/passwd"
  = TileServer.tile_response (one_file "/etc/passwd" "root")
      "/etc/passwd" "/etc/passwd".
Proof.
  apply (tile_request_absolute_name (fun p => p) (one_file "/etc/passwd" "root")
           "/maps/tiles//etc/passwd" "/etc/passwd"); reflexivity.
Defined.

(* ===================================================================== *)
(** ** Further properties: the ensurer on the server in memory *)
(* ===================================================================== *)

Lemma path_eqb_refl (q : list string) : MemFtp.path_eqb q q = true.
Proof.
  induction q as [|x q IH]; [reflexivity|].
  cbn; now rewrite String.eqb_refl, IH.
Qed.

Lemma is_dir_added (st : MemFtp.state) (q x : list string) :
  MemFtp.is_dir st q = true ->
  MemFtp.is_dir (MemFtp.with_dirs st (MemFtp.dirs st ++ [x])) q = true.
Proof.
  unfold MemFtp.is_dir, MemFtp.inb; destruct q as [|a q]; [reflexivity|].
  cbn [MemFtp.with_dirs MemFtp.dirs]; intros Hq.
  rewrite existsb_app, Hq; reflexivity.
Qed.

Lemma is_dir_new (st : MemFtp.state) (q : list string) :
  MemFtp.is_dir (MemFtp.with_dirs st (MemFtp.dirs st ++ [q])) q = true.
Proof.
  unfold MemFtp.is_dir, MemFtp.inb; destruct q as [|a q]; [reflexivity|].
  cbn [MemFtp.with_dirs MemFtp.dirs].
  rewrite existsb_app; cbn [existsb]; rewrite path_eqb_refl.
  now rewrite orb_true_r.
Qed.

Lemma mkd_in_memory (st : MemFtp.state) (p : string) :
  MemFtp.step st (MKD p)
  = (Ok [], MemFtp.with_dirs st
              (MemFtp.dirs st ++ [MemFtp.resolve (MemFtp.cwd st) p]))
  \/ MemFtp.step st (MKD p) = (Perm, st).
Proof.
  unfold MemFtp.step.
  destruct (MemFtp.resolve (MemFtp.cwd st) p) as [|a q]; [now right|].
  match goal with |- context [if ?c then _ else _] => destruct c end;
    [now right | now left].
Qed.

Lemma cwd_in_memory (st : MemFtp.state) (p : string) :
  (MemFtp.is_dir st (MemFtp.resolve (MemFtp.cwd st) p) = true
   /\ MemFtp.step st (CWD p)
      = (Ok [], MemFtp.with_cwd st (MemFtp.resolve (MemFtp.cwd st) p)))
  \/ (MemFtp.is_dir st (MemFtp.resolve (MemFtp.cwd st) p) = false
      /\ MemFtp.step st (CWD p) = (Perm, st)).
Proof.
  unfold MemFtp.step.
  destruct (MemFtp.is_dir st (MemFtp.resolve (MemFtp.cwd st) p));
    [left | right]; now split.
Qed.

Lemma cwd_root_in_memory (st : MemFtp.state) :
  MemFtp.step st (CWD "/") = (Ok [], MemFtp.with_cwd st []).
Proof. reflexivity. Qed.

(** One running path, from the root of the server in memory: a run that
    returns leaves the session at the root, the path a directory, and
    every directory in place. *)
Lemma ensure_dir_in_memory (cp : string) (st : MemFtp.state)
    (l : list event) (w' : world MemFtp.state) :
  MemFtp.cwd st = [] ->
  ensure_dir cp (mkWorld st l) = (Ret tt, w') ->
  MemFtp.cwd (srv w') = []
  /\ MemFtp.is_dir (srv w') (MemFtp.resolve [] cp) = true
  /\ (forall q, MemFtp.is_dir st q = true -> MemFtp.is_dir (srv w') q = true).
Proof.
  intros Hroot; unfold ensure_dir, try_perm.
  unfold bind at 1; rewrite send_run; cbn [srv log ftp_step MemFtp.server].
  destruct (mkd_in_memory st cp) as [E | E]; rewrite E; cbn [fst snd].
  - unfold print; cbn [srv log]; intros E'; injection E' as <-.
    cbn [srv MemFtp.with_dirs MemFtp.cwd]; rewrite Hroot.
    split; [reflexivity|]; split; [apply is_dir_new|].
    intros q Hq; now apply is_dir_added.
  - unfold bind at 1; rewrite send_run; cbn [srv log ftp_step MemFtp.server].
    destruct (cwd_in_memory st cp) as [[Hd E2] | [Hd E2]]; rewrite E2;
      cbn [fst snd].
    + unfold bind at 1; rewrite send_run; cbn [srv log ftp_step MemFtp.server].
      rewrite cwd_root_in_memory; cbn [fst snd].
      unfold ret; intros E'; injection E' as <-.
      cbn [srv MemFtp.with_cwd MemFtp.cwd]; rewrite Hroot in Hd.
      split; [reflexivity|]; split; [exact Hd|].
      intros q Hq; exact Hq.
    + unfold bind, print, raise; discriminate.
Qed.

Lemma ensure_loop_in_memory (parts pre : list string) :
  Forall (fun x => PyStr.nonempty x = true) pre ->
  Forall (fun x => PyStr.nonempty x = true) parts ->
  forall (st : MemFtp.state) (l : list event) (w' : world MemFtp.state),
    MemFtp.cwd st = [] ->
    ensure_loop parts (PyStr.join pre) (mkWorld st l) = (Ret tt, w') ->
    MemFtp.cwd (srv w') = []
    /\ Forall (fun cp => MemFtp.is_dir (srv w') (MemFtp.resolve [] cp) = true)
         (running pre parts)
    /\ (forall q, MemFtp.is_dir st q = true -> MemFtp.is_dir (srv w') q = true).
Proof.
  intros Hpre Hparts; revert pre Hpre.
  induction Hparts as [|part rest Hp _ IH]; intros pre Hpre st l w' Hroot;
    cbn [ensure_loop].
  - unfold ret; intros E; injection E as <-; cbn [srv].
    split; [assumption|]; split; [constructor | auto].
  - rewrite Hp, running_path_step, running_cons by assumption; unfold bind.
    destruct (ensure_dir (PyStr.join (pre ++ [part])) (mkWorld st l))
      as [[[]|e] [st1 l1]] eqn:E1; [|discriminate].
    destruct (ensure_dir_in_memory _ _ _ _ Hroot E1) as [Hr1 [Hd1 Hm1]];
      cbn [srv] in *.
    intros E2.
    assert (Hpre' : Forall (fun x => PyStr.nonempty x = true) (pre ++ [part]))
      by (apply Forall_app; split; [assumption | now constructor]).
    destruct (IH _ Hpre' _ _ _ Hr1 E2) as [Hr2 [Hd2 Hm2]].
    split; [assumption|]; split; [|auto].
    constructor; [now apply Hm2 | assumption].
Qed.

(** X26. On the server in memory, from the root: when
    [create_remote_directory] returns, every accumulated prefix of the path
    is a directory of the server, the directories that were there are
    still there, and the session is at the root again. *)
Theorem create_remote_directory_makes_prefixes (path : string)
    (st : MemFtp.state) (l : list event) (w' : world MemFtp.state) :
  MemFtp.cwd st = [] ->
  create_remote_directory path (mkWorld st l) = (Ret tt, w') ->
  MemFtp.cwd (srv w') = []
  /\ Forall (fun cp => MemFtp.is_dir (srv w') (MemFtp.resolve [] cp) = true)
       (prefixes path)
  /\ (forall q, MemFtp.is_dir st q = true -> MemFtp.is_dir (srv w') q = true).
Proof.
  intros Hroot; rewrite create_remote_directory_segments.
  exact (ensure_loop_in_memory (segments path) [] (Forall_nil _)
           (segments_nonempty path) st l w' Hroot).
Qed.

Lemma create_remote_directory_makes_prefixes_witness :
  let w' := snd (create_remote_directory "/a//b/c/" root_session) in
  MemFtp.cwd (srv w') = []
  /\ Forall (fun cp => MemFtp.is_dir (srv w') (MemFtp.resolve [] cp) = true)
       (prefixes "/a//b/c/")
  /\ (forall q, MemFtp.is_dir (srv root_session) q = true ->
                MemFtp.is_dir (srv w') q = true).
Proof.
  apply (create_remote_directory_makes_prefixes "/a//b/c/"
           (srv root_session) (log root_session)
           (snd (create_remote_directory "/a//b/c/" root_session)));
    vm_compute; reflexivity.
Defined.

Lemma mkd_existing_in_memory (st : MemFtp.state) (p : string) :
  MemFtp.is_dir st (MemFtp.resolve (MemFtp.cwd st) p) = true ->
  MemFtp.step st (MKD p) = (Perm, st).
Proof.
  unfold MemFtp.step; intros Hd.
  destruct (MemFtp.resolve (MemFtp.cwd st) p) as [|a q]; [reflexivity|].
  now rewrite Hd.
Qed.

Lemma back_at_root (st : MemFtp.state) (q : list string) :
  MemFtp.cwd st = [] -> MemFtp.with_cwd (MemFtp.with_cwd st q) [] = st.
Proof. destruct st; cbn; now intros ->. Qed.

(** A running path that is already a directory: the server is left as it
    is. *)
Lemma ensure_dir_existing (cp : string) (st : MemFtp.state) (l : list event) :
  MemFtp.cwd st = [] ->
  MemFtp.is_dir st (MemFtp.resolve [] cp) = true ->
  exists l', ensure_dir cp (mkWorld st l) = (Ret tt, mkWorld st l').
Proof.
  intros Hroot Hd; unfold ensure_dir, try_perm.
  unfold bind at 1; rewrite send_run; cbn [srv log ftp_step MemFtp.server].
  rewrite mkd_existing_in_memory by now rewrite Hroot.
  cbn [fst snd].
  unfold bind at 1; rewrite send_run; cbn [srv log ftp_step MemFtp.server].
  destruct (cwd_in_memory st cp) as [[_ E2] | [Hn _]];
    [|rewrite Hroot in Hn; congruence].
  rewrite E2; cbn [fst snd].
  unfold bind at 1; rewrite send_run; cbn [srv log ftp_step MemFtp.server].
  rewrite cwd_root_in_memory; cbn [fst snd].
  rewrite back_at_root by assumption.
  unfold ret; now eexists.
Qed.

Lemma ensure_loop_existing (parts pre : list string) :
  Forall (fun x => PyStr.nonempty x = true) pre ->
  Forall (fun x => PyStr.nonempty x = true) parts ->
  forall (st : MemFtp.state) (l : list event),
    MemFtp.cwd st = [] ->
    Forall (fun cp => MemFtp.is_dir st (MemFtp.resolve [] cp) = true)
      (running pre parts) ->
    exists l', ensure_loop parts (PyStr.join pre) (mkWorld st l)
               = (Ret tt, mkWorld st l').
Proof.
  intros Hpre Hparts; revert pre Hpre.
  induction Hparts as [|part rest Hp _ IH]; intros pre Hpre st l Hroot Hall;
    cbn [ensure_loop].
  - unfold ret; now eexists.
  - rewrite Hp, running_path_step by assumption.
    rewrite running_cons in Hall; inversion Hall as [|x xs Hd Hrest]; subst.
    destruct (ensure_dir_existing _ _ l Hroot Hd) as [l1 E1].
    unfold bind; rewrite E1.
    apply IH; try assumption.
    apply Forall_app; split; [assumption | now constructor].
Qed.

(** X27. On the server in memory, from the root, running
    [create_remote_directory] a second time on the same path returns
    again and changes nothing on the server: no directory is created and
    the session is still at the root. *)
Theorem create_remote_directory_twice (path : string) (st : MemFtp.state)
    (l : list event) (w1 : world MemFtp.state) :
  MemFtp.cwd st = [] ->
  create_remote_directory path (mkWorld st l) = (Ret tt, w1) ->
  fst (create_remote_directory path w1) = Ret tt
  /\ srv (snd (create_remote_directory path w1)) = srv w1.
Proof.
  intros Hroot E1.
  rewrite create_remote_directory_segments in *.
  destruct (ensure_loop_in_memory (segments path) [] (Forall_nil _)
              (segments_nonempty path) st l w1 Hroot E1) as [Hr1 [Hd1 _]].
  destruct w1 as [st1 l1]; cbn [srv] in *.
  destruct (ensure_loop_existing (segments path) [] (Forall_nil _)
              (segments_nonempty path) st1 l1 Hr1 Hd1) as [l2 E2].
  change (PyStr.join []) with "" in E2; now rewrite E2.
Qed.

Lemma create_remote_directory_twice_witness :
  let w1 := snd (create_remote_directory "a/b/c" root_session) in
  fst (create_remote_directory "a/b/c" w1) = Ret tt
  /\ srv (snd (create_remote_directory "a/b/c" w1)) = srv w1.
Proof.
  apply (create_remote_directory_twice "a/b/c" (srv root_session)
           (log root_session));
    vm_compute; reflexivity.
Defined.
